(** * ctf-gameserver: checker database layer and tick scheduler

    A shallow embedding of [ctf_gameserver/checker/database.py] (the queries
    a checker runs against the game and state databases) and of the
    controller's single scheduling step, together with the properties of
    the work distribution, result recording and state persistence layers.

    Tables are lists of rows in insertion order, SQL joins are nested
    iterations over these lists, [NOW()] and [RANDOM()] are explicit inputs
    and every Python function becomes a function from the database to an
    outcome (returned value or raised exception) and the database after
    the transaction. *)

From Stdlib Require Import String ZArith List Bool Lia Permutation.
From Stdlib.Strings Require Import Byte.
Import ListNotations.
Open Scope Z_scope.

(** ** Rows of the game database *)

(** [scoring_gamecontrol]: the competition cursor. *)
Record GameControl := mkGameControl {
  start : Z;
  valid_ticks : Z;
  tick_duration : Z;
  current_tick : Z
}.

(** [scoring_service]. *)
Record Service := mkService {
  svc_id : Z;
  svc_name : string;
  svc_slug : string
}.

(** [registration_team]: [user_id] is the internal id, [net_number] the
    handle the checkers use. *)
Record Team := mkTeam {
  user_id : Z;
  net_number : Z
}.

(** [scoring_flag]: one check task; [placement_start] is set when a checker
    claims it, [placement_end] when a result is committed. *)
Record Flag := mkFlag {
  flag_id : Z;
  service_id : Z;
  protecting_team_id : Z;
  tick : Z;
  placement_start : option Z;
  placement_end : option Z
}.

(** [scoring_statuscheck]: one row per committed result. *)
Record StatusCheck := mkStatusCheck {
  sc_service_id : Z;
  sc_team_id : Z;
  sc_tick : Z;
  sc_status : Z;
  sc_timestamp : Z
}.

Record GameDB := mkGameDB {
  scoring_gamecontrol : list GameControl;
  scoring_service : list Service;
  registration_team : list Team;
  scoring_flag : list Flag;
  scoring_statuscheck : list StatusCheck
}.

(** ** Rows of the state database *)

(** [checkerstate], with its unique key
    [(service_id, team_net_no, identifier)]. *)
Record CheckerState := mkCheckerState {
  cs_service_id : Z;
  cs_team_net_no : Z;
  cs_identifier : string;
  cs_data : list byte
}.

Definition StateDB := list CheckerState.

(** ** Exceptions and outcomes *)

Inductive DBError :=
| InsufficientPrivilege   (* the authorization failure of a read-restricted transaction *)
| DBDataError             (* ctf_gameserver.lib.exceptions.DBDataError *)
| InvalidRowCount         (* PostgreSQL rejects a negative LIMIT *)
| DeadlockDetected.       (* the transaction was chosen as the victim of a lock cycle *)

(** What a Python call does: it returns a value or raises. *)
Inductive Outcome (A : Type) :=
| Returned (a : A)
| Raised (e : DBError).
Arguments Returned {A} a.
Arguments Raised {A} e.

(** ** Transactions *)

Module Tx.

(** The body of a [with transaction_cursor(...) as cursor:] block: it reads
    the permission mode of the transaction, threads the store through the
    statements and may fail. *)
Definition t (S A : Type) : Type := bool -> S -> DBError + (A * S).

Definition ret {S A} (a : A) : t S A := fun _ s => inr (a, s).

Definition bind {S A B} (m : t S A) (k : A -> t S B) : t S B :=
  fun p s => match m p s with
             | inl e => inl e
             | inr (a, s') => k a p s'
             end.

Definition raise {S A} (e : DBError) : t S A := fun _ _ => inl e.

(** A [SELECT]: allowed in both permission modes, the store is untouched. *)
Definition query {S A} (q : S -> A) : t S A := fun _ s => inr (q s, s).

(** An [INSERT] or [UPDATE]: refused in a read-restricted transaction. *)
Definition execute {S} (u : S -> S) : t S unit :=
  fun p s => if p then inl InsufficientPrivilege else inr (tt, u s).

(** The locking clause [FOR UPDATE] of a [SELECT]: locking rows needs the
    privilege to update the table, whatever rows the query matches, so the
    statement is refused in a read-restricted transaction; it changes no
    data. *)
Definition for_update {S} : t S unit :=
  fun p s => if p then inl InsufficientPrivilege else inr (tt, s).

(** [cursor.executemany(stmt, params)]: the statement once per parameter,
    in order; nothing is sent for an empty parameter list. *)
Fixpoint executemany {S P} (u : P -> S -> S) (params : list P) : t S unit :=
  match params with
  | [] => ret tt
  | x :: rest => bind (execute (u x)) (fun _ => executemany u rest)
  end.

End Tx.

Declare Scope tx_scope.
Delimit Scope tx_scope with tx.
Notation "x <- m ;; k" := (Tx.bind m (fun x => k))
  (at level 61, m at next level, right associativity) : tx_scope.
Notation "m ;;; k" := (Tx.bind m (fun _ => k))
  (at level 61, right associativity) : tx_scope.

(** Modelled from the spec: [transaction_cursor] of
    [ctf_gameserver.lib.database] is not among the sources.  The block runs
    as one atomic unit: when it completes the transaction is committed, when
    a statement fails everything is rolled back and the failure is raised to
    the caller.  In the read-restricted mode ([prohibit_changes]) a
    statement that mutates the store fails with an authorization error. *)
Definition transaction_cursor {S A} (prohibit_changes : bool)
    (body : Tx.t S A) (db_conn : S) : Outcome A * S :=
  match body prohibit_changes db_conn with
  | inr (a, db') => (Returned a, db')
  | inl e => (Raised e, db_conn)
  end.

(** [cursor.fetchone()]: the first row of the result, or [None]. *)
Definition fetchone {A} (rows : list A) : option A := hd_error rows.

(** ** State store: [load_state] and [store_state] *)

Definition state_key_eqb (service team_net_no : Z) (identifier : string)
    (row : CheckerState) : bool :=
  (cs_service_id row =? service) && (cs_team_net_no row =? team_net_no)
  && String.eqb (cs_identifier row) identifier.

(** [SELECT data FROM checkerstate WHERE service_id = %s AND team_net_no = %s
    AND identifier = %s] *)
Definition select_state (service team_net_no : Z) (identifier : string)
    (db : StateDB) : list (list byte) :=
  map cs_data (filter (state_key_eqb service team_net_no identifier) db).

Definition load_state (service team_net_no : Z) (identifier : string)
    (prohibit_changes : bool) (db_conn : StateDB)
    : Outcome (option (list byte)) * StateDB :=
  transaction_cursor prohibit_changes
    (Tx.query (fun db => fetchone (select_state service team_net_no identifier db)))
    db_conn.

(** [INSERT INTO checkerstate ... ON CONFLICT (service_id, team_net_no,
    identifier) DO UPDATE SET data = EXCLUDED.data] *)
Definition upsert_state (service team_net_no : Z) (identifier : string)
    (data : list byte) (db : StateDB) : StateDB :=
  if existsb (state_key_eqb service team_net_no identifier) db
  then map (fun row =>
              if state_key_eqb service team_net_no identifier row
              then mkCheckerState (cs_service_id row) (cs_team_net_no row)
                                  (cs_identifier row) data
              else row) db
  else db ++ [mkCheckerState service team_net_no identifier data].

Definition store_state (service team_net_no : Z) (identifier : string)
    (data : list byte) (prohibit_changes : bool) (db_conn : StateDB)
    : Outcome unit * StateDB :=
  transaction_cursor prohibit_changes
    (Tx.execute (upsert_state service team_net_no identifier data))
    db_conn.

(** ** Game database: what the checker reads *)

(** [SELECT current_tick FROM scoring_gamecontrol], then [fetchone];
    [DBDataError] is raised after the transaction when there is no row. *)
Definition get_current_tick (prohibit_changes : bool) (db_conn : GameDB)
    : Outcome Z * GameDB :=
  match transaction_cursor prohibit_changes
          (Tx.query (fun db => fetchone (map current_tick (scoring_gamecontrol db))))
          db_conn with
  | (Returned None, db') => (Raised DBDataError, db')
  | (Returned (Some result), db') => (Returned result, db')
  | (Raised e, db') => (Raised e, db')
  end.

(** [FROM scoring_flag flag, scoring_gamecontrol control
     WHERE flag.tick = control.current_tick AND flag.service_id = %s] *)
Definition select_task_count_rows (service : Z) (db : GameDB)
    : list (Flag * GameControl) :=
  filter (fun '(flag, control) =>
            (tick flag =? current_tick control) && (service_id flag =? service))
         (list_prod (scoring_flag db) (scoring_gamecontrol db)).

(** [SELECT COUNT( * )] over these rows. *)
Definition get_task_count (service : Z) (prohibit_changes : bool)
    (db_conn : GameDB) : Outcome Z * GameDB :=
  transaction_cursor prohibit_changes
    (Tx.query (fun db => Z.of_nat (length (select_task_count_rows service db))))
    db_conn.

(** ** Work distributor: [get_new_tasks] *)

(** A row of the task query:
    [flag.id, flag.protecting_team_id, flag.tick, team.net_number]. *)
Record TaskRow := mkTaskRow {
  row_flag_id : Z;
  row_team_id : Z;
  row_tick : Z;
  row_net_number : Z
}.

(** The dictionary handed to the checker for one task. *)
Record Task := mkTask {
  task_team_id : Z;
  task_team_net_no : Z;
  task_tick : Z
}.

Definition task_of_row (row : TaskRow) : Task :=
  mkTask (row_team_id row) (row_net_number row) (row_tick row).

Definition is_null {A} (v : option A) : bool :=
  match v with None => true | Some _ => false end.

(** The [WHERE] clause of the task query. *)
Definition open_task_cond (service : Z) (r : Flag * GameControl * Team) : bool :=
  let '(flag, control, team) := r in
  is_null (placement_start flag)
  && (tick flag =? current_tick control)
  && (service_id flag =? service)
  && (protecting_team_id flag =? user_id team).

(** [FROM scoring_flag flag, scoring_gamecontrol control, registration_team team
     WHERE ...], projected on the selected columns. *)
Definition open_task_rows (service : Z) (db : GameDB) : list TaskRow :=
  map (fun '(flag, control, team) =>
         mkTaskRow (flag_id flag) (protecting_team_id flag) (tick flag)
                   (net_number team))
      (filter (open_task_cond service)
              (list_prod (list_prod (scoring_flag db) (scoring_gamecontrol db))
                         (registration_team db))).

(** [ORDER BY RANDOM()]: the i-th row is given the i-th draw [rnd i] as its
    key and the rows are sorted by key. *)
Fixpoint insert_by_key {A} (k : Z) (x : A) (l : list (Z * A)) : list (Z * A) :=
  match l with
  | [] => [(k, x)]
  | (k', y) :: rest =>
      if k <=? k' then (k, x) :: l else (k', y) :: insert_by_key k x rest
  end.

Definition sort_by_key {A} (l : list (Z * A)) : list (Z * A) :=
  fold_right (fun kx acc => insert_by_key (fst kx) (snd kx) acc) [] l.

Definition order_by_random {A} (rnd : nat -> Z) (rows : list A) : list A :=
  map snd (sort_by_key (combine (map rnd (seq 0 (length rows))) rows)).

(** [LIMIT %s] for a non-negative count. *)
Definition limit {A} (count : Z) (rows : list A) : list A :=
  firstn (Z.to_nat count) rows.

(** The whole [SELECT ... ORDER BY RANDOM() LIMIT %s FOR UPDATE OF flag]:
    the privilege for the row locks is checked when the statement starts; a
    negative [LIMIT] is an error of its execution. *)
Definition select_new_tasks (rnd : nat -> Z) (service task_count : Z)
    : Tx.t GameDB (list TaskRow) :=
  Tx.bind Tx.for_update (fun _ =>
    if task_count <? 0 then Tx.raise InvalidRowCount
    else Tx.query (fun db =>
           limit task_count (order_by_random rnd (open_task_rows service db)))).

Definition with_flags (db : GameDB) (flags : list Flag) : GameDB :=
  mkGameDB (scoring_gamecontrol db) (scoring_service db) (registration_team db)
           flags (scoring_statuscheck db).

Definition set_placement_start (now : Z) (flag : Flag) : Flag :=
  mkFlag (flag_id flag) (service_id flag) (protecting_team_id flag) (tick flag)
         (Some now) (placement_end flag).

Definition set_placement_end (now : Z) (flag : Flag) : Flag :=
  mkFlag (flag_id flag) (service_id flag) (protecting_team_id flag) (tick flag)
         (placement_start flag) (Some now).

(** [UPDATE scoring_flag SET placement_start = NOW() WHERE id = %s] *)
Definition update_placement_start (now id : Z) (db : GameDB) : GameDB :=
  with_flags db
    (map (fun flag => if flag_id flag =? id then set_placement_start now flag else flag)
         (scoring_flag db)).

Definition id_in (id : Z) (ids : list Z) : bool := existsb (Z.eqb id) ids.

(** The rows the task query returns on the store [db]. *)
Definition selected_rows (rnd : nat -> Z) (service task_count : Z) (db : GameDB)
    : list TaskRow :=
  limit task_count (order_by_random rnd (open_task_rows service db)).

(** The updates of the [executemany], one per selected row, in order. *)
Definition start_placements (now : Z) (tasks : list TaskRow) (db : GameDB) : GameDB :=
  fold_left (fun db id => update_placement_start now id db)
            (map row_flag_id tasks) db.

Definition get_new_tasks (rnd : nat -> Z) (now : Z) (service task_count : Z)
    (prohibit_changes : bool) (db_conn : GameDB) : Outcome (list Task) * GameDB :=
  transaction_cursor prohibit_changes
    (tasks <- select_new_tasks rnd service task_count ;;
     (* Mark placement as in progress *)
     Tx.executemany (update_placement_start now) (map row_flag_id tasks) ;;;
     Tx.ret (map task_of_row tasks))%tx
    db_conn.

(** ** Result recorder: [commit_result] *)

(** [SELECT user_id FROM registration_team WHERE net_number = %s] *)
Definition select_team_id (team_net_no : Z) (db : GameDB) : list Z :=
  map user_id (filter (fun team => net_number team =? team_net_no) (registration_team db)).

(** [INSERT INTO scoring_statuscheck (service_id, team_id, tick, status,
    timestamp) VALUES (%s, %s, %s, %s, NOW())] *)
Definition insert_statuscheck (now service team_id tick_no result : Z)
    (db : GameDB) : GameDB :=
  mkGameDB (scoring_gamecontrol db) (scoring_service db) (registration_team db)
           (scoring_flag db)
           (scoring_statuscheck db ++ [mkStatusCheck service team_id tick_no result now]).

(** The [WHERE] clause of the closing update. *)
Definition placement_cond (service team_id tick_no : Z) (flag : Flag) : bool :=
  (service_id flag =? service) && (protecting_team_id flag =? team_id)
  && (tick flag =? tick_no).

(** [UPDATE scoring_flag SET placement_end = NOW()
     WHERE service_id = %s AND protecting_team_id = %s AND tick = %s] *)
Definition update_placement_end (now service team_id tick_no : Z)
    (db : GameDB) : GameDB :=
  with_flags db
    (map (fun flag => if placement_cond service team_id tick_no flag
                      then set_placement_end now flag else flag)
         (scoring_flag db)).

(** The statements run once a team id is known. *)
Definition record_result (now service team_id tick_no result : Z)
    : Tx.t GameDB unit :=
  (Tx.execute (insert_statuscheck now service team_id tick_no result) ;;;
   Tx.execute (update_placement_end now service team_id tick_no))%tx.

(** The error logged for an unknown net number is not part of the store and
    is left out; the early [return] leaves the block normally. *)
Definition commit_result (now : Z) (service team_net_no tick_no result : Z)
    (prohibit_changes : bool) (fake_team_id : option Z) (db_conn : GameDB)
    : Outcome unit * GameDB :=
  transaction_cursor prohibit_changes
    (data <- Tx.query (fun db => fetchone (select_team_id team_net_no db)) ;;
     match data with
     | None =>
         match fake_team_id with
         | None => Tx.ret tt
         | Some fake => record_result now service fake tick_no result
         end
     | Some team_id => record_result now service team_id tick_no result
     end)%tx
    db_conn.

(** ** Sequences of checker calls on the game database *)

Inductive Op :=
| OpGetNewTasks (rnd : nat -> Z) (now service task_count : Z) (prohibit_changes : bool)
| OpCommitResult (now service team_net_no tick_no result : Z)
                 (prohibit_changes : bool) (fake_team_id : option Z).

Definition run_op (db : GameDB) (op : Op) : GameDB :=
  match op with
  | OpGetNewTasks rnd now service task_count prohibit =>
      snd (get_new_tasks rnd now service task_count prohibit db)
  | OpCommitResult now service team_net_no tick_no result prohibit fake =>
      snd (commit_result now service team_net_no tick_no result prohibit fake db)
  end.

Definition run_ops (ops : list Op) (db : GameDB) : GameDB :=
  fold_left run_op ops db.

(** Sequences of [store_state] calls on the state database. *)
Definition StoreCall : Type := Z * Z * string * list byte * bool.

Definition run_store (db : StateDB) (call : StoreCall) : StateDB :=
  let '(service, team_net_no, identifier, data, prohibit) := call in
  snd (store_state service team_net_no identifier data prohibit db).

Definition run_stores (calls : list StoreCall) (db : StateDB) : StateDB :=
  fold_left run_store calls db.

Definition store_key (call : StoreCall) : Z * Z * string :=
  let '(service, team_net_no, identifier, _, _) := call in
  (service, team_net_no, identifier).

(** A flag row [flag'] is a later state of the row [flag]: the same work item,
    a [placement_start] that was set is kept as it is, and a [placement_end]
    that was set is still set. *)
Definition later_state (flag flag' : Flag) : Prop :=
  flag_id flag' = flag_id flag
  /\ service_id flag' = service_id flag
  /\ protecting_team_id flag' = protecting_team_id flag
  /\ tick flag' = tick flag
  /\ (forall t, placement_start flag = Some t -> placement_start flag' = Some t)
  /\ (placement_end flag <> None -> placement_end flag' <> None).

(** The specification's reading of the same: neither timestamp changes once
    it is set. *)
Definition never_changes (flag flag' : Flag) : Prop :=
  (forall t, placement_start flag = Some t -> placement_start flag' = Some t)
  /\ (forall t, placement_end flag = Some t -> placement_end flag' = Some t).

(** ** Schema constraints *)

(** [scoring_flag.id] is the primary key. *)
Definition flag_ids_unique (db : GameDB) : Prop :=
  NoDup (map flag_id (scoring_flag db)).

(** [registration_team.user_id] is the primary key. *)
Definition team_ids_unique (db : GameDB) : Prop :=
  NoDup (map user_id (registration_team db)).

(** [scoring_gamecontrol] holds at most one row. *)
Definition control_singleton (db : GameDB) : Prop :=
  (length (scoring_gamecontrol db) <= 1)%nat.

Definition schema_ok (db : GameDB) : Prop :=
  flag_ids_unique db /\ team_ids_unique db /\ control_singleton db.

(** The unique constraint of [checkerstate]. *)
Definition state_key (row : CheckerState) : Z * Z * string :=
  (cs_service_id row, cs_team_net_no row, cs_identifier row).

Definition state_keys_unique (db : StateDB) : Prop :=
  NoDup (map state_key db).

(** ** The specification's reading of [countOpen] *)

(** The number of currently-open work items (no [placement_start]) of a
    service at tick [t], as the specification words it. *)
Definition count_open_at (service t : Z) (db : GameDB) : Z :=
  Z.of_nat (length (filter (fun flag => is_null (placement_start flag)
                                         && (service_id flag =? service)
                                         && (tick flag =? t))
                           (scoring_flag db))).

(** The number of all work items of a service at tick [t]. *)
Definition count_all_at (service t : Z) (db : GameDB) : Z :=
  Z.of_nat (length (filter (fun flag => (service_id flag =? service) && (tick flag =? t))
                           (scoring_flag db))).

(** ** Tick scheduler *)

(** The serial primary key of a new [scoring_flag] row. *)
Definition next_flag_id (flags : list Flag) : Z :=
  1 + fold_right Z.max 0 (map flag_id flags).

(** One open flag per (service, team) pair for the tick [new_tick]. *)
Definition fan_out (first_id new_tick : Z) (services : list Service)
    (teams : list Team) : list Flag :=
  map (fun '(i, (service, team)) =>
         mkFlag (first_id + Z.of_nat i) (svc_id service) (user_id team) new_tick
                None None)
      (combine (seq 0 (length (list_prod services teams))) (list_prod services teams)).

Definition set_current_tick (new_tick : Z) (control : GameControl) : GameControl :=
  mkGameControl (start control) (valid_ticks control) (tick_duration control) new_tick.

(** Advance to [new_tick]: create the work items and persist the cursor. *)
Definition increase_tick (new_tick : Z) (db : GameDB) : GameDB :=
  mkGameDB (map (set_current_tick new_tick) (scoring_gamecontrol db))
           (scoring_service db) (registration_team db)
           (scoring_flag db
            ++ fan_out (next_flag_id (scoring_flag db)) new_tick
                       (scoring_service db) (registration_team db))
           (scoring_statuscheck db).

(** Modelled from the spec: the controller's [main_loop_step] is not among
    the sources (only its tests are).  One step of the tick scheduler at the
    wall-clock instant [now], following the decision rules 1 to 7 in order;
    the result is the list of idle durations of the step, in order, and the
    store after it. *)
Definition main_loop_step (now : Z) (nonstop : bool) (db : GameDB)
    : list Z * GameDB :=
  match fetchone (scoring_gamecontrol db) with
  | None => ([60], db)
  | Some control =>
      if now <? start control then ([60], db)
      else
        let elapsed := now - start control in
        let target := elapsed / tick_duration control in
        let permitted :=
          nonstop
          || (now <? start control + valid_ticks control * tick_duration control) in
        if permitted then
          if current_tick control <? target
          then ([0], increase_tick (current_tick control + 1) db)
          else ([(current_tick control + 1) * tick_duration control - elapsed], db)
        else ([0; 60], db)
  end.

(** The driver loop: one step per wall-clock reading; the idle durations of
    each step are collected. *)
Fixpoint main_loop (nows : list Z) (nonstop : bool) (db : GameDB)
    : list (list Z) * GameDB :=
  match nows with
  | [] => ([], db)
  | now :: later =>
      let '(sleeps, db') := main_loop_step now nonstop db in
      let '(rest, db'') := main_loop later nonstop db' in
      (sleeps :: rest, db'')
  end.

(** A count is not negative and a duration is positive. *)
Definition control_ok (control : GameControl) : Prop :=
  0 <= valid_ticks control /\ 0 < tick_duration control.

(** ** Concurrent checkers inside [get_new_tasks]

    Several checker processes run the transaction of [get_new_tasks] against
    the same game database in the normal permission mode.  A transaction
    first takes the result of its [SELECT] on the committed store
    ([Calling] to [Selecting]); [FOR UPDATE OF flag] then locks the flag of
    one result row after the other, up to the [LIMIT]: a row whose flag is
    locked by another transaction makes the checker wait, and a row whose
    flag has been claimed in the meantime by a committed transaction is
    skipped.  At the end the updates are applied, the transaction commits
    and the locks are released ([Done]).  A schedule names the checker that
    takes the next step, or the checker whose transaction the database
    aborts. *)

Module Concurrent.

Inductive Phase :=
| Calling
| Selecting (candidates locked : list TaskRow)
| Done (tasks : list TaskRow)
| Failed (e : DBError).

Record Checker := mkChecker {
  ck_rnd : nat -> Z;
  ck_now : Z;
  ck_service : Z;
  ck_count : Z;
  ck_phase : Phase
}.

Definition with_phase (c : Checker) (p : Phase) : Checker :=
  mkChecker (ck_rnd c) (ck_now c) (ck_service c) (ck_count c) p.

(** The flags a checker holds a row lock on. *)
Definition locks (c : Checker) : list Z :=
  match ck_phase c with
  | Selecting _ locked => map row_flag_id locked
  | _ => []
  end.

(** The flags of the tasks a checker has been given. *)
Definition returned_ids (c : Checker) : list Z :=
  match ck_phase c with
  | Done tasks => map row_flag_id tasks
  | _ => []
  end.

(** The re-check of a result row against the committed store. *)
Definition still_open (r : TaskRow) (db : GameDB) : bool :=
  existsb (fun flag => (flag_id flag =? row_flag_id r) && is_null (placement_start flag))
          (scoring_flag db).

(** One step of a checker, given the locks the other checkers hold; the
    last step runs the [executemany] of the updates and commits. *)
Definition step (foreign_locks : list Z) (c : Checker) (db : GameDB)
    : Checker * GameDB :=
  match ck_phase c with
  | Calling =>
      if ck_count c <? 0 then (with_phase c (Failed InvalidRowCount), db)
      else (with_phase c
              (Selecting (order_by_random (ck_rnd c) (open_task_rows (ck_service c) db)) []),
            db)
  | Selecting candidates locked =>
      match candidates with
      | r :: rest =>
          if (length locked <? Z.to_nat (ck_count c))%nat then
            if id_in (row_flag_id r) foreign_locks then (c, db)
            else if still_open r db
                 then (with_phase c (Selecting rest (locked ++ [r])), db)
                 else (with_phase c (Selecting rest locked), db)
          else (with_phase c (Done locked), start_placements (ck_now c) locked db)
      | [] => (with_phase c (Done locked), start_placements (ck_now c) locked db)
      end
  | Done _ | Failed _ => (c, db)
  end.

(** The database ends the transaction of a checker that waits in a lock
    cycle: its locks are released and nothing is written. *)
Definition abort (foreign_locks : list Z) (c : Checker) (db : GameDB)
    : Checker * GameDB :=
  match ck_phase c with
  | Selecting _ _ => (with_phase c (Failed DeadlockDetected), db)
  | _ => (c, db)
  end.

Record World := mkWorld {
  w_checkers : list Checker;
  w_db : GameDB
}.

(** The checker at position [i] moves by [f]. *)
Definition move (f : list Z -> Checker -> GameDB -> Checker * GameDB)
    (w : World) (i : nat) : World :=
  match nth_error (w_checkers w) i with
  | None => w
  | Some c =>
      let before := firstn i (w_checkers w) in
      let after := skipn (S i) (w_checkers w) in
      let '(c', db') := f (concat (map locks (before ++ after))) c (w_db w) in
      mkWorld (before ++ c' :: after) db'
  end.

Inductive Action :=
| Step (i : nat)
| Abort (i : nat).

Definition act (w : World) (a : Action) : World :=
  match a with
  | Step i => move step w i
  | Abort i => move abort w i
  end.

Definition run (schedule : list Action) (w : World) : World :=
  fold_left act schedule w.

(** All checkers have just called [get_new_tasks]. *)
Definition all_calling (w : World) : Prop :=
  Forall (fun c => ck_phase c = Calling) (w_checkers w).

(** The flags open in a store. *)
Definition was_open (db : GameDB) (id : Z) : Prop :=
  exists flag, In flag (scoring_flag db) /\ flag_id flag = id
               /\ placement_start flag = None.

(** The flags a checker holds or has been given. *)
Definition claimed_ids (c : Checker) : list Z :=
  match ck_phase c with
  | Selecting _ locked => map row_flag_id locked
  | Done tasks => map row_flag_id tasks
  | _ => []
  end.

(** What is known of one checker in a world reached from the store [db0]:
    its rows are rows of distinct flags that were open in [db0], and the
    flags of a finished checker are marked in the current store [db]. *)
Definition checker_ok (db0 db : GameDB) (c : Checker) : Prop :=
  match ck_phase c with
  | Selecting candidates locked =>
      NoDup (map row_flag_id (locked ++ candidates))
      /\ Forall (fun r => was_open db0 (row_flag_id r)) (locked ++ candidates)
  | Done tasks =>
      Forall (fun r => was_open db0 (row_flag_id r)) tasks
      /\ (forall flag, In flag (scoring_flag db) ->
                       In (flag_id flag) (map row_flag_id tasks) ->
                       placement_start flag <> None)
  | _ => True
  end.

(** The invariant of the worlds reached from [db0]. *)
Definition invariant (db0 : GameDB) (w : World) : Prop :=
  schema_ok (w_db w)
  /\ (forall flag, In flag (scoring_flag (w_db w)) ->
                   placement_start flag = None -> In flag (scoring_flag db0))
  /\ NoDup (concat (map claimed_ids (w_checkers w)))
  /\ Forall (checker_ok db0 (w_db w)) (w_checkers w).

End Concurrent.

(** ** Game database: competition and service attributes *)

(** The dictionary [get_control_info] returns. *)
Record ControlInfo := mkControlInfo {
  info_contest_start : Z;
  info_valid_ticks : Z;
  info_tick_duration : Z
}.

(** [SELECT start, valid_ticks, tick_duration FROM scoring_gamecontrol], then
    [fetchone]; [DBDataError] is raised after the transaction when there is
    no row. *)
Definition get_control_info (prohibit_changes : bool) (db_conn : GameDB)
    : Outcome ControlInfo * GameDB :=
  match transaction_cursor prohibit_changes
          (Tx.query (fun db =>
             fetchone (map (fun c => (start c, valid_ticks c, tick_duration c))
                           (scoring_gamecontrol db))))
          db_conn with
  | (Returned None, db') => (Raised DBDataError, db')
  | (Returned (Some result), db') =>
      (Returned (mkControlInfo (fst (fst result)) (snd (fst result)) (snd result)), db')
  | (Raised e, db') => (Raised e, db')
  end.

(** The dictionary [get_service_attributes] returns. *)
Record ServiceAttributes := mkServiceAttributes {
  attr_id : Z;
  attr_name : string
}.

(** [SELECT id, name FROM scoring_service WHERE slug = %s], then [fetchone];
    [DBDataError] is raised after the transaction when there is no row. *)
Definition get_service_attributes (service_slug : string) (prohibit_changes : bool)
    (db_conn : GameDB) : Outcome ServiceAttributes * GameDB :=
  match transaction_cursor prohibit_changes
          (Tx.query (fun db =>
             fetchone (map (fun service => (svc_id service, svc_name service))
                           (filter (fun service => String.eqb (svc_slug service) service_slug)
                                   (scoring_service db)))))
          db_conn with
  | (Returned None, db') => (Raised DBDataError, db')
  | (Returned (Some result), db') =>
      (Returned (mkServiceAttributes (fst result) (snd result)), db')
  | (Raised e, db') => (Raised e, db')
  end.

(** ** Reference readings used by the properties *)

(** The blob a key holds after a sequence of [store_state] calls, read as a
    finite map would: the blob of the last call for the key that was not
    read-restricted, or the initial one. *)
Definition last_stored (key : Z * Z * string) (calls : list StoreCall)
    (initial : option (list byte)) : option (list byte) :=
  fold_left (fun acc call =>
               let '(service, team_net_no, identifier, data, prohibit) := call in
               if negb prohibit
                  && ((service =? fst (fst key)) && (team_net_no =? snd (fst key))
                      && String.eqb identifier (snd key))
               then Some data else acc)
            calls initial.

(** A status check is the record of one of the commits of [ops]. *)
Definition committed_by (ops : list Op) (sc : StatusCheck) : Prop :=
  exists team_net_no prohibit fake,
    In (OpCommitResult (sc_timestamp sc) (sc_service_id sc) team_net_no (sc_tick sc)
                       (sc_status sc) prohibit fake) ops.

(** A concurrent checker holds, or has been given, no more rows than its
    [LIMIT]. *)
Definition within_limit (c : Concurrent.Checker) : Prop :=
  match Concurrent.ck_phase c with
  | Concurrent.Selecting _ rows | Concurrent.Done rows =>
      (length rows <= Z.to_nat (Concurrent.ck_count c))%nat
  | _ => True
  end.

(** ** Sample stores *)

Definition sample_teams : list Team := [mkTeam 2 102; mkTeam 3 103; mkTeam 4 104].

Definition sample_services : list Service :=
  [mkService 1 "service1" "s1"; mkService 2 "service2" "s2"].

(** Tick 5 is current; one flag of tick 5 is claimed, one is closed, one
    flag of tick 4 is still open. *)
Definition sample_db : GameDB :=
  mkGameDB [mkGameControl 0 480 180 5] sample_services sample_teams
           [mkFlag 1 1 2 4 None None;
            mkFlag 2 1 2 5 None None;
            mkFlag 3 1 3 5 (Some 900) None;
            mkFlag 4 1 4 5 (Some 901) (Some 905);
            mkFlag 5 2 2 5 None None]
           [].

(** Three checkers, two of them for service 1, on the six fresh flags of
    tick 5. *)
Definition sample_world : Concurrent.World :=
  Concurrent.mkWorld
    [Concurrent.mkChecker (fun i => Z.of_nat i) 1000 1 2 Concurrent.Calling;
     Concurrent.mkChecker (fun i => - Z.of_nat i) 1001 2 5 Concurrent.Calling;
     Concurrent.mkChecker (fun i => - Z.of_nat i) 1002 1 5 Concurrent.Calling]
    (mkGameDB [mkGameControl 0 480 180 5] sample_services sample_teams
              (fan_out 1 5 sample_services sample_teams) []).

Definition sample_schedule : list Concurrent.Action :=
  map Concurrent.Step [0; 2; 0; 2; 1; 0; 1; 2; 1; 0; 1; 2; 2; 1; 2]%nat.

Definition sample_state_db : StateDB :=
  [mkCheckerState 1 102 "flagid" [x01; x02]].

(** * Properties *)

(** ** Transactions *)

Lemma transaction_query {S A} (p : bool) (q : S -> A) (db : S) :
  transaction_cursor p (Tx.query q) db = (Returned (q db), db).
Proof. reflexivity. Qed.

Lemma executemany_normal {S P} (u : P -> S -> S) (params : list P) (db : S) :
  Tx.executemany u params false db
  = inr (tt, fold_left (fun db x => u x db) params db).
Proof.
  revert db. induction params as [|x rest IH]; intros db; simpl.
  - reflexivity.
  - unfold Tx.bind, Tx.execute. apply IH.
Qed.

Lemma executemany_restricted {S P} (u : P -> S -> S) (x : P) (rest : list P) (db : S) :
  Tx.executemany u (x :: rest) true db = inl InsufficientPrivilege.
Proof. reflexivity. Qed.

(** ** State store *)

Section StateStore.

Variables (service team_net_no : Z) (identifier : string).

Local Abbreviation key_eqb := (state_key_eqb service team_net_no identifier).

Lemma state_key_eqb_spec (row : CheckerState) :
  key_eqb row = true <-> state_key row = (service, team_net_no, identifier).
Proof.
  unfold state_key_eqb, state_key.
  rewrite !andb_true_iff, !Z.eqb_eq, String.eqb_eq.
  split.
  - intros [[-> ->] ->]. reflexivity.
  - intros H. injection H as -> -> ->. auto.
Qed.

Lemma load_state_eq (p : bool) (db : StateDB) :
  load_state service team_net_no identifier p db
  = (Returned (fetchone (select_state service team_net_no identifier db)), db).
Proof. reflexivity. Qed.

Lemma store_state_normal (data : list byte) (db : StateDB) :
  store_state service team_net_no identifier data false db
  = (Returned tt, upsert_state service team_net_no identifier data db).
Proof. reflexivity. Qed.

Lemma store_state_restricted (data : list byte) (db : StateDB) :
  store_state service team_net_no identifier data true db
  = (Raised InsufficientPrivilege, db).
Proof. reflexivity. Qed.

Lemma filter_none (db : StateDB) :
  existsb key_eqb db = false -> filter key_eqb db = [].
Proof.
  induction db as [|row db IH]; simpl; [reflexivity|].
  destruct (key_eqb row); simpl; [discriminate | exact IH].
Qed.

(** The rows of the key after an upsert: the old ones, each with the new
    blob, or one new row. *)
Lemma select_state_upsert (data : list byte) (db : StateDB) :
  select_state service team_net_no identifier
               (upsert_state service team_net_no identifier data db)
  = repeat data (Nat.max 1 (length (select_state service team_net_no identifier db))).
Proof.
  unfold select_state, upsert_state.
  destruct (existsb key_eqb db) eqn:E.
  - assert (H : forall l,
               map cs_data (filter key_eqb
                 (map (fun row => if key_eqb row
                                  then mkCheckerState (cs_service_id row) (cs_team_net_no row)
                                                      (cs_identifier row) data
                                  else row) l))
               = repeat data (length (map cs_data (filter key_eqb l)))).
    { induction l as [|row l IH]; simpl; [reflexivity|].
      destruct (key_eqb row) eqn:K; simpl.
      - assert (K' : key_eqb (mkCheckerState (cs_service_id row) (cs_team_net_no row)
                                             (cs_identifier row) data) = true).
        { apply state_key_eqb_spec. apply state_key_eqb_spec in K. exact K. }
        rewrite K'. simpl. now rewrite IH.
      - rewrite K. exact IH. }
    rewrite H.
    destruct (filter key_eqb db) as [|r l] eqn:F.
    + apply existsb_exists in E. destruct E as [row [Hin Hk]].
      assert (Hf : In row (filter key_eqb db)) by (apply filter_In; auto).
      rewrite F in Hf. destruct Hf.
    + reflexivity.
  - rewrite filter_app, (filter_none db E). simpl.
    assert (K : key_eqb (mkCheckerState service team_net_no identifier data) = true)
      by (apply state_key_eqb_spec; reflexivity).
    rewrite K. reflexivity.
Qed.

Lemma upsert_state_keys (data : list byte) (db : StateDB) :
  map state_key (upsert_state service team_net_no identifier data db)
  = if existsb key_eqb db then map state_key db
    else map state_key db ++ [(service, team_net_no, identifier)].
Proof.
  unfold upsert_state.
  destruct (existsb key_eqb db).
  - rewrite map_map. apply map_ext. intros row.
    destruct (key_eqb row); reflexivity.
  - rewrite map_app. reflexivity.
Qed.

Lemma upsert_state_unique (data : list byte) (db : StateDB) :
  state_keys_unique db ->
  state_keys_unique (upsert_state service team_net_no identifier data db).
Proof.
  unfold state_keys_unique. intros Hnd. rewrite upsert_state_keys.
  destruct (existsb key_eqb db) eqn:E; [exact Hnd|].
  apply NoDup_app; repeat split; auto.
  - constructor; [intros []|constructor].
  - intros k Hin [<-|[]].
    apply in_map_iff in Hin. destruct Hin as [row [Hk Hin]].
    assert (existsb key_eqb db = true); [|congruence].
    apply existsb_exists. exists row. split; [exact Hin|].
    apply state_key_eqb_spec. exact Hk.
Qed.

End StateStore.

Lemma run_store_keys (call : StoreCall) (db : StateDB) :
  incl (map state_key (run_store db call)) (store_key call :: map state_key db).
Proof.
  destruct call as [[[[service team] identifier] data] prohibit].
  unfold run_store. destruct prohibit.
  - rewrite store_state_restricted. simpl. apply incl_tl, incl_refl.
  - rewrite store_state_normal. simpl snd. rewrite upsert_state_keys.
    destruct (existsb _ db).
    + apply incl_tl, incl_refl.
    + intros k Hin. apply in_app_or in Hin. destruct Hin as [Hin|[<-|[]]].
      * right. exact Hin.
      * left. reflexivity.
Qed.

Lemma run_stores_keys (calls : list StoreCall) (db : StateDB) :
  incl (map state_key (run_stores calls db)) (map store_key calls ++ map state_key db).
Proof.
  revert db. induction calls as [|call calls IH]; intros db; simpl.
  - apply incl_refl.
  - intros k Hin. apply IH in Hin. apply in_app_or in Hin.
    destruct Hin as [Hin|Hin].
    + right. apply in_or_app. left. exact Hin.
    + apply run_store_keys in Hin. destruct Hin as [<-|Hin].
      * left. reflexivity.
      * right. apply in_or_app. right. exact Hin.
Qed.

Lemma run_stores_unique (calls : list StoreCall) (db : StateDB) :
  state_keys_unique db -> state_keys_unique (run_stores calls db).
Proof.
  revert db. induction calls as [|call calls IH]; intros db Hnd; simpl.
  - exact Hnd.
  - apply IH.
    destruct call as [[[[service team] identifier] data] prohibit].
    unfold run_store. destruct prohibit.
    + rewrite store_state_restricted. exact Hnd.
    + rewrite store_state_normal. apply upsert_state_unique. exact Hnd.
Qed.

(** C6: [store_state] followed by [load_state] on the same key returns the
    stored blob, whatever the table held before; the upsert overwrites in
    place (a key already present keeps its number of rows, a new key gets
    one row), so that a table filled by [store_state] calls holds at most
    one row per key; and [load_state] on a key that no call has stored
    returns [None] and does not raise. *)
Theorem state_round_trip
    (service team_net_no : Z) (identifier : string) (data : list byte)
    (db : StateDB) (calls : list StoreCall) (p : bool) :
  ~ In (service, team_net_no, identifier) (map store_key calls) ->
  let stored := snd (store_state service team_net_no identifier data false db) in
  let filled := run_stores calls [] in
  fst (store_state service team_net_no identifier data false db) = Returned tt
  /\ load_state service team_net_no identifier p stored = (Returned (Some data), stored)
  /\ length (select_state service team_net_no identifier stored)
     = Nat.max 1 (length (select_state service team_net_no identifier db))
  /\ state_keys_unique filled
  /\ load_state service team_net_no identifier p filled = (Returned None, filled).
Proof.
  intros Hnever stored filled. subst stored filled.
  rewrite store_state_normal. simpl fst. simpl snd.
  rewrite !load_state_eq, select_state_upsert, repeat_length.
  repeat split.
  - destruct (length (select_state service team_net_no identifier db)); reflexivity.
  - apply run_stores_unique. constructor.
  - destruct (select_state service team_net_no identifier (run_stores calls []))
      as [|d l] eqn:E; [reflexivity|].
    exfalso. apply Hnever.
    unfold select_state in E.
    destruct (filter (state_key_eqb service team_net_no identifier) (run_stores calls []))
      as [|row rows] eqn:F; [discriminate|].
    assert (Hin : In row (filter (state_key_eqb service team_net_no identifier)
                                 (run_stores calls [])))
      by (rewrite F; left; reflexivity).
    apply filter_In in Hin. destruct Hin as [Hin Hk].
    apply state_key_eqb_spec in Hk.
    pose proof (run_stores_keys calls [] _ (in_map state_key _ _ Hin)) as Hk'.
    rewrite Hk in Hk'. simpl in Hk'. rewrite app_nil_r in Hk'. exact Hk'.
Qed.

Lemma state_round_trip_witness :
  load_state 1 102 "flagid" false
    (snd (store_state 1 102 "flagid" [x07] false sample_state_db))
  = (Returned (Some [x07]), [mkCheckerState 1 102 "flagid" [x07]])
  /\ load_state 1 102 "flagid" false
       (run_stores [(1, 103, "flagid"%string, [x01], false);
                    (2, 102, "flagid"%string, [x02], false)] [])
     = (Returned None,
        [mkCheckerState 1 103 "flagid" [x01]; mkCheckerState 2 102 "flagid" [x02]]).
Proof.
  assert (Hnever : ~ In (1, 102, "flagid"%string)
                        (map store_key [(1, 103, "flagid"%string, [x01], false);
                                        (2, 102, "flagid"%string, [x02], false)])).
  { simpl. intros [H|[H|[]]]; discriminate H. }
  pose proof (state_round_trip 1 102 "flagid" [x07] sample_state_db _ false Hnever) as H.
  simpl in H. destruct H as [_ [Hload [_ [_ Hnone]]]].
  split; [exact Hload | exact Hnone].
Defined.

(** ** Tick scheduler *)

Lemma list_prod_map {A B A' B'} (f : A -> A') (g : B -> B') (l : list A) (l' : list B) :
  map (fun ab => (f (fst ab), g (snd ab))) (list_prod l l')
  = list_prod (map f l) (map g l').
Proof.
  induction l as [|a l IH]; simpl; [reflexivity|].
  rewrite map_app, IH, !map_map. reflexivity.
Qed.

Section FanOut.

Variables (first_id new_tick : Z).

Lemma fan_out_pairs_from (k : nat) (pairs : list (Service * Team)) :
  map (fun flag => (service_id flag, protecting_team_id flag))
      (map (fun '(i, (service, team)) =>
              mkFlag (first_id + Z.of_nat i) (svc_id service) (user_id team) new_tick
                     None None)
           (combine (seq k (length pairs)) pairs))
  = map (fun st => (svc_id (fst st), user_id (snd st))) pairs.
Proof.
  revert k. induction pairs as [|[service team] pairs IH]; intros k; simpl.
  - reflexivity.
  - rewrite IH. reflexivity.
Qed.

Lemma fan_out_pairs (services : list Service) (teams : list Team) :
  map (fun flag => (service_id flag, protecting_team_id flag))
      (fan_out first_id new_tick services teams)
  = list_prod (map svc_id services) (map user_id teams).
Proof.
  unfold fan_out. rewrite fan_out_pairs_from. apply list_prod_map.
Qed.

Lemma fan_out_length (services : list Service) (teams : list Team) :
  length (fan_out first_id new_tick services teams)
  = (length services * length teams)%nat.
Proof.
  unfold fan_out.
  rewrite length_map, length_combine, length_seq, Nat.min_id.
  apply length_prod.
Qed.

Lemma fan_out_open (services : list Service) (teams : list Team) :
  Forall (fun flag => tick flag = new_tick /\ placement_start flag = None
                      /\ placement_end flag = None)
         (fan_out first_id new_tick services teams).
Proof.
  unfold fan_out. apply Forall_forall. intros flag Hin.
  apply in_map_iff in Hin. destruct Hin as [[i [service team]] [<- _]].
  simpl. auto.
Qed.

End FanOut.

(** C1: when the competition control is configured, the start has been
    reached, advancing is permitted and the current tick is behind the
    target, one scheduler step moves the current tick to exactly
    [current_tick + 1], appends |services| x |teams| open flags, one per
    (service, team) pair, all of the new tick, and its only idle duration
    is 0. *)
Theorem main_loop_step_advances
    (now : Z) (nonstop : bool) (db : GameDB) (control : GameControl) :
  fetchone (scoring_gamecontrol db) = Some control ->
  start control <= now ->
  nonstop = true
  \/ now < start control + valid_ticks control * tick_duration control ->
  current_tick control < (now - start control) / tick_duration control ->
  exists created db',
    main_loop_step now nonstop db = ([0], db')
    /\ get_current_tick false db' = (Returned (current_tick control + 1), db')
    /\ Forall (fun c => current_tick c = current_tick control + 1) (scoring_gamecontrol db')
    /\ scoring_flag db' = scoring_flag db ++ created
    /\ length created
       = (length (scoring_service db) * length (registration_team db))%nat
    /\ Forall (fun flag => tick flag = current_tick control + 1
                           /\ placement_start flag = None
                           /\ placement_end flag = None) created
    /\ map (fun flag => (service_id flag, protecting_team_id flag)) created
       = list_prod (map svc_id (scoring_service db)) (map user_id (registration_team db)).
Proof.
  intros Hcfg Hstart Hperm Hdue.
  exists (fan_out (next_flag_id (scoring_flag db)) (current_tick control + 1)
                  (scoring_service db) (registration_team db)).
  exists (increase_tick (current_tick control + 1) db).
  split; [|split; [|split; [|split; [|split; [|split]]]]].
  - unfold main_loop_step. rewrite Hcfg.
    destruct (Z.ltb_spec now (start control)) as [Hlt|_]; [lia|].
    assert (Hp : (nonstop
                  || (now <? start control + valid_ticks control * tick_duration control))
                 = true).
    { destruct Hperm as [->|Hlt]; [reflexivity|].
      apply orb_true_iff. right. apply Z.ltb_lt. exact Hlt. }
    cbv zeta. rewrite Hp.
    destruct (Z.ltb_spec (current_tick control)
                         ((now - start control) / tick_duration control)) as [_|Hge];
      [reflexivity | lia].
  - unfold get_current_tick. rewrite transaction_query.
    destruct (scoring_gamecontrol db) as [|c cs] eqn:E; [discriminate Hcfg|].
    simpl. rewrite E. reflexivity.
  - simpl. apply Forall_forall. intros c Hin.
    apply in_map_iff in Hin. destruct Hin as [c0 [<- _]]. reflexivity.
  - reflexivity.
  - apply fan_out_length.
  - apply fan_out_open.
  - apply fan_out_pairs.
Qed.

(** The overdue case of the controller tests: 19 minutes after the start with
    ticks of 180 seconds and tick 5 current. *)
Lemma main_loop_step_advances_witness :
  exists created db',
    main_loop_step 1140 false sample_db = ([0], db')
    /\ get_current_tick false db' = (Returned 6, db')
    /\ scoring_flag db' = scoring_flag sample_db ++ created
    /\ length created = 6%nat.
Proof.
  destruct (main_loop_step_advances 1140 false sample_db (mkGameControl 0 480 180 5))
    as [created [db' [Hstep [Htick [_ [Hflags [Hlen _]]]]]]].
  - reflexivity.
  - simpl. lia.
  - right. simpl. lia.
  - reflexivity.
  - exists created, db'. auto.
Defined.

Lemma main_loop_step_closed (now : Z) (db : GameDB) (control : GameControl) :
  fetchone (scoring_gamecontrol db) = Some control ->
  control_ok control ->
  start control + valid_ticks control * tick_duration control <= now ->
  main_loop_step now false db = ([0; 60], db).
Proof.
  intros Hcfg [Hticks Hdur] Hclosed.
  unfold main_loop_step. rewrite Hcfg.
  assert (0 <= valid_ticks control * tick_duration control) by nia.
  destruct (Z.ltb_spec now (start control)) as [Hlt|_]; [lia|].
  destruct (Z.ltb_spec now (start control + valid_ticks control * tick_duration control))
    as [Hlt|_]; [lia|].
  reflexivity.
Qed.

(** C7: once the competition window has closed and [nonstop] is false, every
    scheduler step (the first one and each later one of the driver loop)
    waits exactly twice, 0 and then 60, and leaves the whole store, the
    current tick and the flags included, as it was. *)
Theorem main_loop_step_after_end
    (now : Z) (later : list Z) (db : GameDB) (control : GameControl) :
  fetchone (scoring_gamecontrol db) = Some control ->
  control_ok control ->
  Forall (fun t => start control + valid_ticks control * tick_duration control <= t)
         (now :: later) ->
  main_loop_step now false db = ([0; 60], db)
  /\ main_loop (now :: later) false db = (map (fun _ => [0; 60]) (now :: later), db)
  /\ get_current_tick false (snd (main_loop_step now false db))
     = (Returned (current_tick control), db)
  /\ scoring_flag (snd (main_loop_step now false db)) = scoring_flag db.
Proof.
  intros Hcfg Hok Hclosed.
  assert (Hloop : forall nows,
             Forall (fun t => start control + valid_ticks control * tick_duration control <= t)
                    nows ->
             main_loop nows false db = (map (fun _ => [0; 60]) nows, db)).
  { induction nows as [|t nows IH]; intros Hall; [reflexivity|].
    inversion Hall; subst. simpl.
    rewrite (main_loop_step_closed t db control Hcfg Hok) by assumption.
    rewrite IH by assumption. reflexivity. }
  assert (Hnow : start control + valid_ticks control * tick_duration control <= now)
    by (inversion Hclosed; assumption).
  rewrite (main_loop_step_closed now db control Hcfg Hok Hnow).
  repeat split.
  - apply Hloop. exact Hclosed.
  - simpl snd. unfold get_current_tick. rewrite transaction_query.
    destruct (scoring_gamecontrol db) as [|c cs]; [discriminate Hcfg|].
    simpl in Hcfg. injection Hcfg as ->. reflexivity.
Qed.

(** Shortly and long after a competition of 480 ticks of 180 seconds. *)
Lemma main_loop_step_after_end_witness :
  main_loop [86460; 87900] false sample_db = ([[0; 60]; [0; 60]], sample_db).
Proof.
  apply (main_loop_step_after_end 86460 [87900] sample_db (mkGameControl 0 480 180 5)).
  - reflexivity.
  - unfold control_ok. simpl. lia.
  - repeat constructor; simpl; lia.
Defined.

(** ** Work distributor *)

Lemma insert_by_key_perm {A} (k : Z) (x : A) (l : list (Z * A)) :
  Permutation (insert_by_key k x l) ((k, x) :: l).
Proof.
  induction l as [|[k' y] l IH]; simpl; [reflexivity|].
  destruct (k <=? k'); [reflexivity|].
  rewrite IH. apply perm_swap.
Qed.

Lemma sort_by_key_perm {A} (l : list (Z * A)) : Permutation (sort_by_key l) l.
Proof.
  unfold sort_by_key.
  induction l as [|[k x] l IH]; simpl; [reflexivity|].
  rewrite insert_by_key_perm. constructor. exact IH.
Qed.

Lemma map_snd_combine {A B} (ks : list A) (rows : list B) :
  length ks = length rows -> map snd (combine ks rows) = rows.
Proof.
  revert ks. induction rows as [|r rows IH]; intros [|k ks] Hlen;
    simpl in *; try discriminate; try reflexivity.
  f_equal. apply IH. lia.
Qed.

(** [ORDER BY RANDOM()] only reorders the rows. *)
Lemma order_by_random_perm {A} (rnd : nat -> Z) (rows : list A) :
  Permutation (order_by_random rnd rows) rows.
Proof.
  unfold order_by_random.
  transitivity (map snd (combine (map rnd (seq 0 (length rows))) rows)).
  - apply Permutation_map, sort_by_key_perm.
  - rewrite map_snd_combine; [reflexivity|].
    rewrite length_map, length_seq. reflexivity.
Qed.

Lemma In_firstn {A} (n : nat) (x : A) (l : list A) : In x (firstn n l) -> In x l.
Proof.
  intros Hin. rewrite <- (firstn_skipn n l). apply in_or_app. left. exact Hin.
Qed.

Lemma selected_rows_open (rnd : nat -> Z) (service task_count : Z) (db : GameDB)
    (row : TaskRow) :
  In row (selected_rows rnd service task_count db) ->
  In row (open_task_rows service db).
Proof.
  unfold selected_rows, limit. intros Hin. apply In_firstn in Hin.
  eapply Permutation_in; [apply order_by_random_perm | exact Hin].
Qed.

Lemma selected_rows_length (rnd : nat -> Z) (service task_count : Z) (db : GameDB) :
  0 <= task_count ->
  Z.of_nat (length (selected_rows rnd service task_count db)) <= task_count.
Proof.
  intros Hcount. unfold selected_rows, limit.
  pose proof (firstn_le_length (Z.to_nat task_count)
                (order_by_random rnd (open_task_rows service db))).
  lia.
Qed.

(** What a row of the task query stands for. *)
Lemma open_task_rows_In (service : Z) (db : GameDB) (row : TaskRow) :
  In row (open_task_rows service db) <->
  exists flag control team,
    In flag (scoring_flag db) /\ In control (scoring_gamecontrol db)
    /\ In team (registration_team db)
    /\ placement_start flag = None
    /\ tick flag = current_tick control
    /\ service_id flag = service
    /\ protecting_team_id flag = user_id team
    /\ row = mkTaskRow (flag_id flag) (protecting_team_id flag) (tick flag)
                       (net_number team).
Proof.
  unfold open_task_rows. rewrite in_map_iff. split.
  - intros [[[flag control] team] [<- Hin]].
    apply filter_In in Hin. destruct Hin as [Hin Hcond].
    apply in_prod_iff in Hin. destruct Hin as [Hfc Ht].
    apply in_prod_iff in Hfc. destruct Hfc as [Hf Hc].
    unfold open_task_cond in Hcond.
    rewrite !andb_true_iff, !Z.eqb_eq in Hcond.
    destruct Hcond as [[[Hnull Htick] Hsvc] Hteam].
    exists flag, control, team. repeat split; auto.
    destruct (placement_start flag); [discriminate | reflexivity].
  - intros [flag [control [team [Hf [Hc [Ht [Hnull [Htick [Hsvc [Hteam ->]]]]]]]]]].
    exists (flag, control, team). split; [reflexivity|].
    apply filter_In. split.
    + apply in_prod_iff. split; [apply in_prod_iff; split|]; assumption.
    + unfold open_task_cond.
      rewrite !andb_true_iff, !Z.eqb_eq, Hnull. auto.
Qed.

Lemma id_in_spec (id : Z) (ids : list Z) : id_in id ids = true <-> In id ids.
Proof.
  unfold id_in. rewrite existsb_exists. split.
  - intros [x [Hin Heq]]. apply Z.eqb_eq in Heq. subst. exact Hin.
  - intros Hin. exists id. split; [exact Hin | apply Z.eqb_refl].
Qed.

Lemma with_flags_same (db : GameDB) : with_flags db (scoring_flag db) = db.
Proof. destruct db; reflexivity. Qed.

(** The [executemany] sets [placement_start] on the flags whose id is among
    the selected rows and leaves every other row and table alone. *)
Lemma start_placements_spec (now : Z) (tasks : list TaskRow) (db : GameDB) :
  start_placements now tasks db
  = with_flags db
      (map (fun flag => if id_in (flag_id flag) (map row_flag_id tasks)
                        then set_placement_start now flag else flag)
           (scoring_flag db)).
Proof.
  unfold start_placements. revert db.
  induction tasks as [|r tasks IH]; intros db; simpl.
  - rewrite map_id. symmetry. apply with_flags_same.
  - rewrite IH. unfold update_placement_start, with_flags. simpl.
    f_equal. rewrite map_map. apply map_ext. intros flag.
    rewrite Z.eqb_sym.
    destruct (row_flag_id r =? flag_id flag); simpl.
    + destruct (id_in _ _); reflexivity.
    + reflexivity.
Qed.

Lemma get_new_tasks_normal (rnd : nat -> Z) (now service task_count : Z) (db : GameDB) :
  0 <= task_count ->
  get_new_tasks rnd now service task_count false db
  = (Returned (map task_of_row (selected_rows rnd service task_count db)),
     start_placements now (selected_rows rnd service task_count db) db).
Proof.
  intros Hcount.
  unfold get_new_tasks, transaction_cursor, select_new_tasks, Tx.bind, Tx.for_update.
  destruct (Z.ltb_spec task_count 0) as [Hneg|_]; [lia|].
  unfold Tx.query. rewrite executemany_normal. reflexivity.
Qed.

Lemma get_new_tasks_negative (rnd : nat -> Z) (now service task_count : Z)
    (db : GameDB) :
  task_count < 0 ->
  get_new_tasks rnd now service task_count false db = (Raised InvalidRowCount, db).
Proof.
  intros Hneg.
  unfold get_new_tasks, transaction_cursor, select_new_tasks, Tx.bind, Tx.for_update.
  destruct (Z.ltb_spec task_count 0) as [_|Hpos]; [reflexivity | lia].
Qed.

(** Read-restricted, the task query is refused before any row is looked
    at. *)
Lemma get_new_tasks_restricted (rnd : nat -> Z) (now service task_count : Z) (db : GameDB) :
  get_new_tasks rnd now service task_count true db = (Raised InsufficientPrivilege, db).
Proof. reflexivity. Qed.

(** C2: in the normal permission mode a call of [get_new_tasks] with a
    non-negative count returns; it returns at most [task_count] tasks; each
    returned task comes from a row of the task query that stands for a flag
    of the requested service that was open (no [placement_start]) in the
    store the call started from, and carries that flag's team id, the team's
    net number and the flag's tick; and in the store the same transaction
    leaves behind, the flags of the selected rows, and only they, have
    changed: their [placement_start] is the time of the call, every other
    column is as before. *)
Theorem get_new_tasks_claims
    (rnd : nat -> Z) (now service task_count : Z) (db : GameDB) :
  0 <= task_count ->
  exists rows tasks db',
    get_new_tasks rnd now service task_count false db = (Returned tasks, db')
    /\ Z.of_nat (length tasks) <= task_count
    /\ Forall2 (fun task row =>
                  task_team_id task = row_team_id row
                  /\ task_team_net_no task = row_net_number row
                  /\ task_tick task = row_tick row) tasks rows
    /\ Forall (fun row =>
                 exists flag team,
                   In flag (scoring_flag db) /\ In team (registration_team db)
                   /\ flag_id flag = row_flag_id row
                   /\ placement_start flag = None
                   /\ service_id flag = service
                   /\ tick flag = row_tick row
                   /\ protecting_team_id flag = row_team_id row
                   /\ user_id team = row_team_id row
                   /\ net_number team = row_net_number row) rows
    /\ Forall2 (fun flag flag' =>
                  (In (flag_id flag) (map row_flag_id rows) ->
                   placement_start flag' = Some now
                   /\ flag' = mkFlag (flag_id flag) (service_id flag)
                                     (protecting_team_id flag) (tick flag)
                                     (Some now) (placement_end flag))
                  /\ (~ In (flag_id flag) (map row_flag_id rows) -> flag' = flag))
               (scoring_flag db) (scoring_flag db')
    /\ Forall (fun row =>
                 exists flag',
                   In flag' (scoring_flag db')
                   /\ flag_id flag' = row_flag_id row
                   /\ placement_start flag' = Some now) rows.
Proof.
  intros Hcount.
  exists (selected_rows rnd service task_count db).
  exists (map task_of_row (selected_rows rnd service task_count db)).
  exists (start_placements now (selected_rows rnd service task_count db) db).
  split; [apply get_new_tasks_normal; exact Hcount|].
  split; [rewrite length_map; apply selected_rows_length; exact Hcount|].
  split; [|split; [|split]].
  - induction (selected_rows rnd service task_count db) as [|row rows IH];
      simpl; constructor; auto.
  - apply Forall_forall. intros row Hin.
    apply selected_rows_open, open_task_rows_In in Hin.
    destruct Hin as [flag [control [team [Hf [_ [Ht [Hnull [_ [Hsvc [Hteam ->]]]]]]]]]].
    exists flag, team. simpl. repeat split; auto.
  - rewrite start_placements_spec. simpl.
    induction (scoring_flag db) as [|flag flags IH]; simpl; constructor; auto.
    split; intros Hin.
    + apply id_in_spec in Hin. rewrite Hin. split; reflexivity.
    + destruct (id_in _ _) eqn:E; [|reflexivity].
      apply id_in_spec in E. contradiction.
  - apply Forall_forall. intros row Hrow.
    pose proof Hrow as Hopen.
    apply selected_rows_open, open_task_rows_In in Hopen.
    destruct Hopen as [flag [control [team [Hf [_ [_ [_ [_ [_ [_ Heq]]]]]]]]]].
    assert (Hid : id_in (flag_id flag)
                    (map row_flag_id (selected_rows rnd service task_count db)) = true).
    { apply id_in_spec. apply in_map_iff. exists row. split; [|exact Hrow].
      rewrite Heq. reflexivity. }
    exists (set_placement_start now flag).
    rewrite start_placements_spec. simpl. split; [|split].
    + apply in_map_iff. exists flag. rewrite Hid. auto.
    + rewrite Heq. reflexivity.
    + reflexivity.
Qed.

(** One open flag of service 1 at the current tick: it is returned and
    marked at time 1000, the open flag of tick 4 and the others stay. *)
Lemma get_new_tasks_claims_witness :
  exists db',
    get_new_tasks (fun i => Z.of_nat i) 1000 1 5 false sample_db
    = (Returned [mkTask 2 102 5], db')
    /\ scoring_flag db'
       = [mkFlag 1 1 2 4 None None;
          mkFlag 2 1 2 5 (Some 1000) None;
          mkFlag 3 1 3 5 (Some 900) None;
          mkFlag 4 1 4 5 (Some 901) (Some 905);
          mkFlag 5 2 2 5 None None].
Proof.
  destruct (get_new_tasks_claims (fun i => Z.of_nat i) 1000 1 5 sample_db)
    as [rows [tasks [db' [Hcall _]]]].
  - lia.
  - vm_compute in Hcall. injection Hcall as <- <-.
    eexists. split; reflexivity.
Defined.

(** ** Result recorder *)

(** The team id a commit works with, if any. *)
Lemma commit_result_eq (now service team_net_no tick_no result : Z) (p : bool)
    (fake_team_id : option Z) (db : GameDB) :
  commit_result now service team_net_no tick_no result p fake_team_id db
  = match (match fetchone (select_team_id team_net_no db) with
           | Some team_id => Some team_id
           | None => fake_team_id
           end) with
    | None => (Returned tt, db)
    | Some team_id =>
        if p then (Raised InsufficientPrivilege, db)
        else (Returned tt,
              update_placement_end now service team_id tick_no
                (insert_statuscheck now service team_id tick_no result db))
    end.
Proof.
  unfold commit_result, transaction_cursor, Tx.bind, Tx.query.
  destruct (fetchone (select_team_id team_net_no db)) as [team_id|];
    [|destruct fake_team_id as [fake|]];
    destruct p; reflexivity.
Qed.

Lemma select_team_id_unknown (team_net_no : Z) (db : GameDB) :
  (forall team, In team (registration_team db) -> net_number team <> team_net_no) ->
  select_team_id team_net_no db = [].
Proof.
  intros Hunknown. unfold select_team_id.
  induction (registration_team db) as [|team teams IH]; simpl; [reflexivity|].
  destruct (Z.eqb_spec (net_number team) team_net_no) as [Heq|_].
  - exfalso. apply (Hunknown team); [left; reflexivity | exact Heq].
  - apply IH. intros t Hin. apply Hunknown. right. exact Hin.
Qed.

Lemma placement_cond_spec (service team_id tick_no : Z) (flag : Flag) :
  placement_cond service team_id tick_no flag = true
  <-> service_id flag = service /\ protecting_team_id flag = team_id
      /\ tick flag = tick_no.
Proof.
  unfold placement_cond. rewrite !andb_true_iff, !Z.eqb_eq. tauto.
Qed.

(** C5: when no team has the given net number, a commit with a fallback
    team id (normal permission mode) returns, appends exactly one status
    check, recorded under the fallback id, closes the flags of
    (service, fallback team, tick) and touches nothing else; a commit
    without a fallback returns without raising and leaves the store as it
    was, in either permission mode. *)
Theorem commit_result_unknown_team
    (now service team_net_no tick_no result fake : Z) (p : bool) (db : GameDB) :
  (forall team, In team (registration_team db) -> net_number team <> team_net_no) ->
  (exists db',
      commit_result now service team_net_no tick_no result false (Some fake) db
      = (Returned tt, db')
      /\ scoring_statuscheck db'
         = scoring_statuscheck db ++ [mkStatusCheck service fake tick_no result now]
      /\ Forall2 (fun flag flag' =>
                    (service_id flag = service /\ protecting_team_id flag = fake
                     /\ tick flag = tick_no ->
                     placement_end flag' = Some now
                     /\ flag' = mkFlag (flag_id flag) service fake tick_no
                                       (placement_start flag) (Some now))
                    /\ (~ (service_id flag = service /\ protecting_team_id flag = fake
                           /\ tick flag = tick_no) -> flag' = flag))
                 (scoring_flag db) (scoring_flag db')
      /\ scoring_gamecontrol db' = scoring_gamecontrol db
      /\ scoring_service db' = scoring_service db
      /\ registration_team db' = registration_team db)
  /\ commit_result now service team_net_no tick_no result p None db = (Returned tt, db).
Proof.
  intros Hunknown. apply select_team_id_unknown in Hunknown.
  rewrite !commit_result_eq, Hunknown. simpl. split; [|reflexivity].
  eexists. split; [reflexivity|]. simpl. repeat split.
  induction (scoring_flag db) as [|flag flags IH]; simpl; constructor; auto.
  split; intros Hcond.
  - pose proof Hcond as [Hsvc [Hteam Htick]].
    apply placement_cond_spec in Hcond. rewrite Hcond.
    unfold set_placement_end. rewrite Hsvc, Hteam, Htick. split; reflexivity.
  - destruct (placement_cond service fake tick_no flag) eqn:E; [|reflexivity].
    apply placement_cond_spec in E. contradiction.
Qed.

(** Net number 999 belongs to no team: with the fallback id 3 the claimed
    flag 3 of (service 1, team 3, tick 5) is closed at time 1000 and one
    status check is recorded; without a fallback nothing happens. *)
Lemma commit_result_unknown_team_witness :
  commit_result 1000 1 999 5 0 false None sample_db = (Returned tt, sample_db)
  /\ exists db',
       commit_result 1000 1 999 5 0 false (Some 3) sample_db = (Returned tt, db')
       /\ scoring_statuscheck db' = [mkStatusCheck 1 3 5 0 1000]
       /\ scoring_flag db'
          = [mkFlag 1 1 2 4 None None;
             mkFlag 2 1 2 5 None None;
             mkFlag 3 1 3 5 (Some 900) (Some 1000);
             mkFlag 4 1 4 5 (Some 901) (Some 905);
             mkFlag 5 2 2 5 None None].
Proof.
  destruct (commit_result_unknown_team 1000 1 999 5 0 3 false sample_db)
    as [[db' [Hcall [Hsc _]]] Hnone].
  - simpl. intros team [<-|[<-|[<-|[]]]]; simpl; lia.
  - split; [exact Hnone|]. exists db'. split; [exact Hcall|]. split; [exact Hsc|].
    vm_compute in Hcall. injection Hcall as <-. reflexivity.
Defined.

(** ** Task count *)

Lemma list_prod_single {A B} (l : list A) (b : B) :
  list_prod l [b] = map (fun a => (a, b)) l.
Proof.
  induction l as [|a l IH]; simpl; [reflexivity|]. rewrite IH. reflexivity.
Qed.

(** C3, as the code has it: with the single control row in place,
    [get_task_count] returns the number of all flags of the service at the
    current tick, whether open, claimed or closed, and leaves the store as
    it was, in either permission mode. *)
Theorem get_task_count_total
    (service : Z) (p : bool) (db : GameDB) (control : GameControl) :
  scoring_gamecontrol db = [control] ->
  get_task_count service p db
  = (Returned (count_all_at service (current_tick control) db), db).
Proof.
  intros Hctl. unfold get_task_count. rewrite transaction_query.
  unfold select_task_count_rows, count_all_at. rewrite Hctl, list_prod_single.
  do 3 f_equal.
  induction (scoring_flag db) as [|flag flags IH]; simpl; [reflexivity|].
  rewrite (andb_comm (tick flag =? current_tick control)).
  destruct ((service_id flag =? service) && (tick flag =? current_tick control));
    simpl; rewrite IH; reflexivity.
Qed.

Lemma get_task_count_total_witness :
  get_task_count 1 false sample_db = (Returned 3, sample_db).
Proof.
  apply (get_task_count_total 1 false sample_db (mkGameControl 0 480 180 5)).
  reflexivity.
Defined.

(** C3 as stated fails: of the three flags of service 1 at the current tick
    5 of the sample store only one is open, and the count is 3. *)
Lemma get_task_count_not_open :
  get_current_tick false sample_db = (Returned 5, sample_db)
  /\ count_open_at 1 5 sample_db = 1
  /\ get_task_count 1 false sample_db = (Returned 3, sample_db)
  /\ fst (get_task_count 1 false sample_db) <> Returned (count_open_at 1 5 sample_db).
Proof.
  repeat split. intros H. discriminate H.
Qed.

(** ** Read-restricted mode *)




(** ** Flags touched by the checker calls *)

Lemma NoDup_map_eq {A B} (g : A -> B) (l : list A) (a b : A) :
  NoDup (map g l) -> In a l -> In b l -> g a = g b -> a = b.
Proof.
  induction l as [|x l IH]; simpl; intros Hnd Ha Hb Heq; [contradiction|].
  inversion Hnd as [|y ys Hnotin Hnd']; subst.
  destruct Ha as [->|Ha], Hb as [->|Hb].
  - reflexivity.
  - exfalso. apply Hnotin. rewrite Heq. apply in_map. exact Hb.
  - exfalso. apply Hnotin. rewrite <- Heq. apply in_map. exact Ha.
  - apply IH; assumption.
Qed.

(** With [id] as primary key, a flag whose id is among the selected rows is
    the open flag of the current tick the row was made from. *)
Lemma selected_flag (rnd : nat -> Z) (service task_count : Z) (db : GameDB) (flag : Flag) :
  flag_ids_unique db ->
  In flag (scoring_flag db) ->
  In (flag_id flag) (map row_flag_id (selected_rows rnd service task_count db)) ->
  placement_start flag = None
  /\ service_id flag = service
  /\ exists control, In control (scoring_gamecontrol db)
                     /\ tick flag = current_tick control.
Proof.
  intros Hunique Hin Hid.
  apply in_map_iff in Hid. destruct Hid as [row [Hid Hrow]].
  apply selected_rows_open, open_task_rows_In in Hrow.
  destruct Hrow as [flag0 [control [team [Hf [Hc [_ [Hnull [Htick [Hsvc [_ ->]]]]]]]]]].
  simpl in Hid.
  assert (flag0 = flag) as -> by (eapply NoDup_map_eq; eauto).
  repeat split; auto. exists control. auto.
Qed.

Lemma Forall2_map_In {A B} (P : A -> B -> Prop) (f : A -> B) (l : list A) :
  (forall a, In a l -> P a (f a)) -> Forall2 P l (map f l).
Proof.
  induction l as [|a l IH]; intros H; simpl; constructor.
  - apply H. left. reflexivity.
  - apply IH. intros b Hb. apply H. right. exact Hb.
Qed.

Lemma Forall2_same {A} (P : A -> A -> Prop) (l : list A) :
  (forall a, P a a) -> Forall2 P l l.
Proof. intros H. induction l; constructor; auto. Qed.

Lemma Forall2_trans {A} (P : A -> A -> Prop) (l1 l2 l3 : list A) :
  (forall a b c, P a b -> P b c -> P a c) ->
  Forall2 P l1 l2 -> Forall2 P l2 l3 -> Forall2 P l1 l3.
Proof.
  intros Htrans H12. revert l3.
  induction H12 as [|a b l1 l2 Hab _ IH]; intros l3 H23; inversion H23; subst;
    constructor; eauto.
Qed.

Lemma get_current_tick_single (p : bool) (db : GameDB) (t : Z) :
  control_singleton db ->
  get_current_tick p db = (Returned t, db) ->
  forall control, In control (scoring_gamecontrol db) -> current_tick control = t.
Proof.
  unfold control_singleton, get_current_tick. rewrite transaction_query.
  destruct (scoring_gamecontrol db) as [|c [|c' cs]]; simpl; intros Hlen Hget.
  - discriminate Hget.
  - injection Hget as <-. intros control [<-|[]]. reflexivity.
  - lia.
Qed.

(** C10: with the single control row and [id] as primary key, every task a
    call of [get_new_tasks] returns has the stored current tick, and a flag
    of any other tick, open or not, is left as it was by the call. *)
Theorem get_new_tasks_current_tick
    (rnd : nat -> Z) (now service task_count t : Z) (db : GameDB) :
  0 <= task_count ->
  control_singleton db ->
  flag_ids_unique db ->
  get_current_tick false db = (Returned t, db) ->
  exists tasks db',
    get_new_tasks rnd now service task_count false db = (Returned tasks, db')
    /\ Forall (fun task => task_tick task = t) tasks
    /\ Forall2 (fun flag flag' => tick flag <> t -> flag' = flag)
               (scoring_flag db) (scoring_flag db').
Proof.
  intros Hcount Hsingle Hunique Htick.
  pose proof (get_current_tick_single false db t Hsingle Htick) as Hcur.
  eexists. eexists. split; [apply get_new_tasks_normal; exact Hcount|]. split.
  - apply Forall_forall. intros task Hin.
    apply in_map_iff in Hin. destruct Hin as [row [<- Hrow]].
    apply selected_rows_open, open_task_rows_In in Hrow.
    destruct Hrow as [flag [control [team [_ [Hc [_ [_ [Hflag [_ [_ ->]]]]]]]]]].
    simpl. rewrite Hflag. apply Hcur. exact Hc.
  - rewrite start_placements_spec. simpl.
    apply Forall2_map_In. intros flag Hin Hother.
    destruct (id_in _ _) eqn:E; [|reflexivity].
    apply id_in_spec in E.
    destruct (selected_flag rnd service task_count db flag Hunique Hin E)
      as [_ [_ [control [Hc Hflag]]]].
    exfalso. apply Hother. rewrite Hflag. apply Hcur. exact Hc.
Qed.

Lemma sample_db_ids_unique : flag_ids_unique sample_db.
Proof.
  unfold flag_ids_unique. simpl.
  repeat (constructor; [simpl; intuition discriminate|]). constructor.
Qed.

Lemma get_new_tasks_current_tick_witness :
  exists tasks db',
    get_new_tasks (fun i => Z.of_nat i) 1000 1 5 false sample_db = (Returned tasks, db')
    /\ Forall (fun task => task_tick task = 5) tasks
    /\ Forall2 (fun flag flag' => tick flag <> 5 -> flag' = flag)
               (scoring_flag sample_db) (scoring_flag db').
Proof.
  apply (get_new_tasks_current_tick (fun i => Z.of_nat i) 1000 1 5 5 sample_db).
  - lia.
  - unfold control_singleton. simpl. lia.
  - exact sample_db_ids_unique.
  - reflexivity.
Defined.

(** ** Timestamps of a flag only move forward *)

Lemma later_state_refl (flag : Flag) : later_state flag flag.
Proof. unfold later_state. tauto. Qed.

Lemma later_state_trans (a b c : Flag) :
  later_state a b -> later_state b c -> later_state a c.
Proof.
  unfold later_state.
  intros [H1 [H2 [H3 [H4 [H5 H6]]]]] [K1 [K2 [K3 [K4 [K5 K6]]]]].
  repeat split; try congruence; auto.
Qed.

Lemma later_state_ids (flags flags' : list Flag) :
  Forall2 later_state flags flags' -> map flag_id flags' = map flag_id flags.
Proof.
  induction 1 as [|a b l l' [Hid _] _ IH]; simpl; [reflexivity|].
  rewrite Hid, IH. reflexivity.
Qed.

Lemma commit_result_later (now service team_net_no tick_no result : Z) (p : bool)
    (fake_team_id : option Z) (db : GameDB) :
  Forall2 later_state (scoring_flag db)
    (scoring_flag (snd (commit_result now service team_net_no tick_no result p
                                      fake_team_id db))).
Proof.
  rewrite commit_result_eq.
  destruct (match fetchone (select_team_id team_net_no db) with
            | Some team_id => Some team_id
            | None => fake_team_id
            end) as [team_id|]; [destruct p|]; simpl;
    try (apply Forall2_same, later_state_refl).
  apply Forall2_map_In. intros flag _.
  destruct (placement_cond service team_id tick_no flag);
    [|apply later_state_refl].
  unfold later_state. simpl. repeat split; auto. discriminate.
Qed.

Lemma get_new_tasks_later (rnd : nat -> Z) (now service task_count : Z) (p : bool)
    (db : GameDB) :
  flag_ids_unique db ->
  Forall2 later_state (scoring_flag db)
    (scoring_flag (snd (get_new_tasks rnd now service task_count p db))).
Proof.
  intros Hunique.
  destruct p.
  { rewrite get_new_tasks_restricted. apply Forall2_same, later_state_refl. }
  destruct (Z.lt_ge_cases task_count 0) as [Hneg|Hcount].
  { rewrite get_new_tasks_negative by exact Hneg.
    apply Forall2_same, later_state_refl. }
  rewrite get_new_tasks_normal by exact Hcount. simpl snd.
  rewrite start_placements_spec. simpl.
  apply Forall2_map_In. intros flag Hin.
  destruct (id_in _ _) eqn:E; [|apply later_state_refl].
  apply id_in_spec in E.
  destruct (selected_flag rnd service task_count db flag Hunique Hin E) as [Hnull _].
  unfold later_state. simpl. repeat split; auto.
  intros t Ht. congruence.
Qed.

Lemma run_op_later (op : Op) (db : GameDB) :
  flag_ids_unique db ->
  Forall2 later_state (scoring_flag db) (scoring_flag (run_op db op)).
Proof.
  intros Hunique. destruct op; simpl.
  - apply get_new_tasks_later. exact Hunique.
  - apply commit_result_later.
Qed.

(** Over any sequence of calls every flag stays in the table as the same
    work item, in a later state. *)
Lemma run_ops_later (ops : list Op) (db : GameDB) :
  flag_ids_unique db ->
  Forall2 later_state (scoring_flag db) (scoring_flag (run_ops ops db)).
Proof.
  unfold run_ops. revert db.
  induction ops as [|op ops IH]; intros db Hunique; simpl.
  - apply Forall2_same, later_state_refl.
  - pose proof (run_op_later op db Hunique) as Hop.
    eapply Forall2_trans; [exact later_state_trans | exact Hop |].
    apply IH. unfold flag_ids_unique.
    rewrite (later_state_ids _ _ Hop). exact Hunique.
Qed.

(** C4 as stated fails for [placement_end]: flag 4 of the sample store was
    closed at 905, and a second commit for its service, team and tick
    replaces the timestamp by 1020. *)
Lemma placement_end_overwritten :
  nth_error (scoring_flag sample_db) 3 = Some (mkFlag 4 1 4 5 (Some 901) (Some 905))
  /\ nth_error (scoring_flag (run_ops [OpCommitResult 1020 1 104 5 0 false None] sample_db)) 3
     = Some (mkFlag 4 1 4 5 (Some 901) (Some 1020))
  /\ ~ Forall2 never_changes (scoring_flag sample_db)
         (scoring_flag (run_ops [OpCommitResult 1020 1 104 5 0 false None] sample_db)).
Proof.
  split; [reflexivity|]. split; [reflexivity|].
  intros H. cbv in H.
  repeat match goal with
         | H : Forall2 _ (_ :: _) (_ :: _) |- _ => inversion H; clear H; subst
         end.
  match goal with
  | H : _ /\ (forall t, Some 905 = Some t -> _) |- _ =>
      destruct H as [_ H]; specialize (H 905 eq_refl); discriminate H
  end.
Qed.

(** ** Concurrent claims *)

Lemma NoDup_list_prod {A B} (l : list A) (l' : list B) :
  NoDup l -> NoDup l' -> NoDup (list_prod l l').
Proof.
  intros Hl Hl'. induction Hl as [|a l Hnotin _ IH]; simpl; [constructor|].
  apply NoDup_app.
  - apply NoDup_map_NoDup_ForallPairs; [|exact Hl'].
    intros x y _ _ Heq. congruence.
  - exact IH.
  - intros [x y] Hin Hin'.
    apply in_map_iff in Hin. destruct Hin as [y' [Heq _]].
    apply in_prod_iff in Hin'. destruct Hin' as [Hx _].
    injection Heq as <- _. contradiction.
Qed.

Lemma NoDup_short {A} (l : list A) : (length l <= 1)%nat -> NoDup l.
Proof.
  destruct l as [|a [|b l]]; simpl; intros Hlen.
  - constructor.
  - constructor; [intros []|constructor].
  - lia.
Qed.

Lemma In_short {A} (l : list A) (a b : A) :
  (length l <= 1)%nat -> In a l -> In b l -> a = b.
Proof.
  destruct l as [|x [|y l]]; simpl; intros Hlen Ha Hb.
  - contradiction.
  - destruct Ha as [<-|[]], Hb as [<-|[]]. reflexivity.
  - lia.
Qed.

(** Under the schema constraints the task query returns a flag at most
    once. *)
Lemma open_task_rows_nodup (service : Z) (db : GameDB) :
  schema_ok db -> NoDup (map row_flag_id (open_task_rows service db)).
Proof.
  intros [Hflags [Hteams Hctl]].
  unfold open_task_rows. rewrite map_map.
  apply NoDup_map_NoDup_ForallPairs.
  - intros [[f1 c1] t1] [[f2 c2] t2] H1 H2 Hid. simpl in Hid.
    apply filter_In in H1. destruct H1 as [H1 Hc1].
    apply filter_In in H2. destruct H2 as [H2 Hc2].
    apply in_prod_iff in H1. destruct H1 as [H1 Ht1].
    apply in_prod_iff in H1. destruct H1 as [Hf1 Hk1].
    apply in_prod_iff in H2. destruct H2 as [H2 Ht2].
    apply in_prod_iff in H2. destruct H2 as [Hf2 Hk2].
    assert (f1 = f2) as -> by (eapply NoDup_map_eq; eauto).
    assert (c1 = c2) as -> by (eapply In_short; eauto).
    unfold open_task_cond in Hc1, Hc2.
    rewrite !andb_true_iff, !Z.eqb_eq in Hc1, Hc2.
    assert (t1 = t2) as ->.
    { eapply NoDup_map_eq; eauto. destruct Hc1 as [_ <-], Hc2 as [_ <-]. reflexivity. }
    reflexivity.
  - apply NoDup_filter, NoDup_list_prod; [apply NoDup_list_prod|].
    + eapply NoDup_map_inv. exact Hflags.
    + apply NoDup_short. exact Hctl.
    + eapply NoDup_map_inv. exact Hteams.
Qed.

Lemma start_placements_schema (now : Z) (tasks : list TaskRow) (db : GameDB) :
  schema_ok db -> schema_ok (start_placements now tasks db).
Proof.
  intros [Hflags [Hteams Hctl]]. rewrite start_placements_spec.
  unfold schema_ok, flag_ids_unique, team_ids_unique, control_singleton. simpl.
  repeat split; auto.
  rewrite map_map.
  erewrite map_ext; [exact Hflags|].
  intros flag. destruct (id_in _ _); reflexivity.
Qed.

Lemma concat_middle {A B} (g : A -> list B) (before after : list A) (c : A) :
  Permutation (concat (map g (before ++ c :: after)))
              (g c ++ concat (map g (before ++ after))).
Proof.
  rewrite !map_app, !concat_app. simpl. apply Permutation_app_swap_app.
Qed.

Module ConcurrentFacts.

Import Concurrent.

Section Invariant.

Variable db0 : GameDB.

Lemma invariant_start (w : World) :
  w_db w = db0 -> schema_ok db0 -> all_calling w -> invariant db0 w.
Proof.
  intros Hdb Hschema Hcalling. unfold invariant. rewrite Hdb.
  repeat split; try apply Hschema; auto.
  - unfold all_calling in Hcalling.
    induction Hcalling as [|c cs Hc _ IH]; simpl; [constructor|].
    unfold claimed_ids at 1. rewrite Hc. exact IH.
  - unfold all_calling in Hcalling.
    eapply Forall_impl; [|exact Hcalling].
    intros c Hc. unfold checker_ok. rewrite Hc. exact I.
Qed.

(** The checker at one position is replaced, the store stays. *)
Lemma invariant_replace (before after : list Checker) (c c' : Checker) (db : GameDB) :
  invariant db0 (mkWorld (before ++ c :: after) db) ->
  checker_ok db0 db c' ->
  NoDup (claimed_ids c' ++ concat (map claimed_ids (before ++ after))) ->
  invariant db0 (mkWorld (before ++ c' :: after) db).
Proof.
  intros [Hschema [Hopen [_ Hok]]] Hc' Hnd. simpl in *.
  repeat split; try apply Hschema; auto.
  - eapply Permutation_NoDup; [symmetry; apply concat_middle | exact Hnd].
  - apply Forall_app in Hok. destruct Hok as [Hb Hca].
    apply Forall_app. split; [exact Hb|].
    inversion Hca; subst. constructor; assumption.
Qed.

Lemma invariant_others (before after : list Checker) (c : Checker) (db : GameDB) :
  invariant db0 (mkWorld (before ++ c :: after) db) ->
  checker_ok db0 db c
  /\ Forall (checker_ok db0 db) (before ++ after)
  /\ NoDup (claimed_ids c ++ concat (map claimed_ids (before ++ after))).
Proof.
  intros [_ [_ [Hnd Hok]]]. simpl in *.
  apply Forall_app in Hok. destruct Hok as [Hb Hca].
  inversion Hca; subst.
  repeat split; auto.
  - apply Forall_app. split; assumption.
  - eapply Permutation_NoDup; [apply concat_middle | exact Hnd].
Qed.

(** A finished checker stays in order when another one commits. *)
Lemma checker_ok_commit (now : Z) (locked : list TaskRow) (db : GameDB) (c : Checker) :
  checker_ok db0 db c -> checker_ok db0 (start_placements now locked db) c.
Proof.
  unfold checker_ok. destruct (ck_phase c) as [|cands held|tasks|e]; auto.
  intros [Hwas Hmarked]. split; [exact Hwas|].
  intros flag Hin Hid. rewrite start_placements_spec in Hin. simpl in Hin.
  apply in_map_iff in Hin. destruct Hin as [old [Hflag Hold]].
  destruct (id_in (flag_id old) (map row_flag_id locked)); subst flag.
  - discriminate.
  - apply Hmarked; assumption.
Qed.

(** The commit of a checker that holds the rows [locked]. *)
Lemma invariant_commit (before after : list Checker) (c : Checker) (db : GameDB)
    (candidates locked : list TaskRow) :
  invariant db0 (mkWorld (before ++ c :: after) db) ->
  ck_phase c = Selecting candidates locked ->
  invariant db0 (mkWorld (before ++ with_phase c (Done locked) :: after)
                         (start_placements (ck_now c) locked db)).
Proof.
  intros Hinv Hphase.
  destruct (invariant_others _ _ _ _ Hinv) as [Hc [Hothers Hnd]].
  destruct Hinv as [Hschema [Hopen [_ Hok]]]. simpl in *.
  unfold checker_ok in Hc. rewrite Hphase in Hc. destruct Hc as [_ Hwas].
  unfold claimed_ids at 1 in Hnd. rewrite Hphase in Hnd.
  repeat split; simpl.
  1-3: apply start_placements_schema; exact Hschema.
  - intros flag Hin Hnull. rewrite start_placements_spec in Hin. simpl in Hin.
    apply in_map_iff in Hin. destruct Hin as [old [Hflag Hold]].
    destruct (id_in (flag_id old) (map row_flag_id locked)); subst flag.
    + discriminate Hnull.
    + apply Hopen; assumption.
  - eapply Permutation_NoDup; [symmetry; apply concat_middle | exact Hnd].
  - apply Forall_app in Hok. destruct Hok as [Hb Hca].
    inversion Hca as [|x xs _ Ha]; subst.
    apply Forall_app. split; [|constructor].
    + eapply Forall_impl; [|exact Hb]. intros x. apply checker_ok_commit.
    + unfold checker_ok. simpl. split.
      * apply Forall_app in Hwas. apply Hwas.
      * intros flag Hin Hid. rewrite start_placements_spec in Hin. simpl in Hin.
        apply in_map_iff in Hin. destruct Hin as [old [Hflag Hold]].
        destruct (id_in (flag_id old) (map row_flag_id locked)) eqn:E; subst flag.
        -- discriminate.
        -- apply id_in_spec in Hid. congruence.
    + eapply Forall_impl; [|exact Ha]. intros x. apply checker_ok_commit.
Qed.

Lemma foreign_lock (others : list Checker) (c2 : Checker) (id : Z)
    (candidates locked : list TaskRow) :
  In c2 others ->
  ck_phase c2 = Selecting candidates locked ->
  In id (map row_flag_id locked) ->
  id_in id (concat (map locks others)) = true.
Proof.
  intros Hin Hphase Hid. apply id_in_spec, in_concat.
  exists (locks c2). split; [apply in_map; exact Hin|].
  unfold locks. rewrite Hphase. exact Hid.
Qed.

(** A row that is not locked elsewhere and still open in the store is
    claimed by no other checker. *)
Lemma free_row (others : list Checker) (db : GameDB) (r : TaskRow) :
  Forall (checker_ok db0 db) others ->
  id_in (row_flag_id r) (concat (map locks others)) = false ->
  still_open r db = true ->
  ~ In (row_flag_id r) (concat (map claimed_ids others)).
Proof.
  intros Hothers Hlock Hstill Hin.
  apply in_concat in Hin. destruct Hin as [ids [Hids Hin]].
  apply in_map_iff in Hids. destruct Hids as [c2 [<- Hc2]].
  rewrite Forall_forall in Hothers. specialize (Hothers c2 Hc2).
  unfold claimed_ids in Hin. unfold checker_ok in Hothers.
  destruct (ck_phase c2) as [|cands held|tasks|e] eqn:Hphase; try contradiction.
  - rewrite (foreign_lock others c2 _ cands held Hc2 Hphase Hin) in Hlock.
    discriminate Hlock.
  - destruct Hothers as [_ Hmarked].
    unfold still_open in Hstill. apply existsb_exists in Hstill.
    destruct Hstill as [flag [Hflag Hcond]].
    apply andb_true_iff in Hcond. destruct Hcond as [Hid Hnull].
    apply Z.eqb_eq in Hid.
    apply (Hmarked flag Hflag); [rewrite Hid; exact Hin|].
    destruct (placement_start flag); [discriminate Hnull | reflexivity].
Qed.

Lemma step_invariant (before after : list Checker) (c c' : Checker) (db db' : GameDB) :
  invariant db0 (mkWorld (before ++ c :: after) db) ->
  step (concat (map locks (before ++ after))) c db = (c', db') ->
  invariant db0 (mkWorld (before ++ c' :: after) db').
Proof.
  intros Hinv Hstep.
  destruct (invariant_others _ _ _ _ Hinv) as [Hc [Hothers Hnd]].
  unfold step in Hstep. unfold checker_ok in Hc. unfold claimed_ids at 1 in Hnd.
  destruct (ck_phase c) as [|cands locked|tasks|e] eqn:Hphase.
  - (* the call: a failure, or the result of the SELECT *)
    destruct (ck_count c <? 0); injection Hstep as <- <-;
      apply (invariant_replace before after c); try exact Hinv; try exact Hnd.
    + exact I.
    + unfold checker_ok. simpl.
      destruct Hinv as [Hschema [Hopen _]]. simpl in Hschema, Hopen. split.
      * eapply Permutation_NoDup;
          [apply Permutation_map; symmetry; apply order_by_random_perm|].
        apply open_task_rows_nodup. exact Hschema.
      * apply Forall_forall. intros r Hr.
        apply (Permutation_in r (order_by_random_perm _ _)) in Hr.
        apply open_task_rows_In in Hr.
        destruct Hr as [flag [control [team [Hf [_ [_ [Hnull [_ [_ [_ Hrow]]]]]]]]]].
        exists flag. rewrite Hrow. simpl. auto.
  - destruct Hc as [Hdistinct Hwas].
    destruct cands as [|r rest].
    { injection Hstep as <- <-. eapply invariant_commit; eauto. }
    destruct (length locked <? Z.to_nat (ck_count c))%nat.
    2: { injection Hstep as <- <-. eapply invariant_commit; eauto. }
    destruct (id_in (row_flag_id r) (concat (map locks (before ++ after)))) eqn:Elock.
    { injection Hstep as <- <-. exact Hinv. }
    destruct (still_open r db) eqn:Estill; injection Hstep as <- <-;
      apply (invariant_replace before after c); try exact Hinv; try exact Hnd.
    + (* the row is locked *)
      unfold checker_ok. simpl. rewrite <- app_assoc. simpl. auto.
    + unfold claimed_ids at 1. simpl. rewrite map_app. simpl.
      eapply Permutation_NoDup;
        [apply Permutation_app_tail, Permutation_cons_append|].
      simpl. constructor; [|exact Hnd].
      intros Hin. apply in_app_or in Hin. destruct Hin as [Hin|Hin].
      * rewrite map_app in Hdistinct. simpl in Hdistinct.
        apply NoDup_remove_2 in Hdistinct. apply Hdistinct.
        apply in_or_app. left. exact Hin.
      * eapply free_row; eauto.
    + (* the row is skipped *)
      unfold checker_ok. simpl. split.
      * rewrite map_app in *. simpl in Hdistinct.
        eapply NoDup_remove_1. exact Hdistinct.
      * apply Forall_app in Hwas. destruct Hwas as [Hl Hr].
        apply Forall_app. split; [exact Hl|]. inversion Hr; assumption.
  - injection Hstep as <- <-. exact Hinv.
  - injection Hstep as <- <-. exact Hinv.
Qed.

Lemma abort_invariant (before after : list Checker) (c c' : Checker) (db db' : GameDB) :
  invariant db0 (mkWorld (before ++ c :: after) db) ->
  abort (concat (map locks (before ++ after))) c db = (c', db') ->
  invariant db0 (mkWorld (before ++ c' :: after) db').
Proof.
  intros Hinv Habort.
  destruct (invariant_others _ _ _ _ Hinv) as [_ [_ Hnd]].
  unfold abort in Habort.
  destruct (ck_phase c); injection Habort as <- <-; try exact Hinv.
  apply (invariant_replace before after c); try exact Hinv.
  - exact I.
  - apply NoDup_app_remove_l in Hnd. exact Hnd.
Qed.

Lemma move_invariant (f : list Z -> Checker -> GameDB -> Checker * GameDB)
    (w : World) (i : nat) :
  (forall before after c c' db db',
      invariant db0 (mkWorld (before ++ c :: after) db) ->
      f (concat (map locks (before ++ after))) c db = (c', db') ->
      invariant db0 (mkWorld (before ++ c' :: after) db')) ->
  invariant db0 w -> invariant db0 (move f w i).
Proof.
  intros Hf Hinv. unfold move.
  destruct (nth_error (w_checkers w) i) as [c|] eqn:E; [|exact Hinv].
  destruct (f _ c (w_db w)) as [c' db'] eqn:F.
  eapply Hf; [|exact F].
  rewrite (firstn_skipn_middle _ _ E). destruct w. exact Hinv.
Qed.

Lemma run_invariant (schedule : list Action) (w : World) :
  invariant db0 w -> invariant db0 (run schedule w).
Proof.
  unfold run. revert w.
  induction schedule as [|a schedule IH]; intros w Hinv; simpl; [exact Hinv|].
  apply IH. destruct a as [i|i]; simpl; apply move_invariant; auto.
  - exact step_invariant.
  - exact abort_invariant.
Qed.

End Invariant.

Lemma NoDup_app_disjoint {A} (l1 l2 : list A) (a : A) :
  NoDup (l1 ++ l2) -> In a l1 -> In a l2 -> False.
Proof.
  induction l1 as [|x l1 IH]; simpl; intros Hnd H1 H2; [contradiction|].
  inversion Hnd as [|y ys Hnotin Hnd']; subst.
  destruct H1 as [->|H1].
  - apply Hnotin. apply in_or_app. right. exact H2.
  - apply IH; assumption.
Qed.

Lemma returned_claimed (c : Checker) :
  returned_ids c = claimed_ids c \/ returned_ids c = [].
Proof.
  unfold returned_ids, claimed_ids. destruct (ck_phase c); auto.
Qed.

Lemma returned_incl (cs : list Checker) :
  incl (concat (map returned_ids cs)) (concat (map claimed_ids cs)).
Proof.
  induction cs as [|c cs IH]; simpl; [apply incl_refl|].
  apply incl_app_app; [|exact IH].
  destruct (returned_claimed c) as [->| ->]; [apply incl_refl|].
  intros a [].
Qed.

Lemma returned_nodup (cs : list Checker) :
  NoDup (concat (map claimed_ids cs)) -> NoDup (concat (map returned_ids cs)).
Proof.
  induction cs as [|c cs IH]; simpl; intros Hnd; [constructor|].
  pose proof (NoDup_app_remove_l _ _ Hnd) as Hrest.
  destruct (returned_claimed c) as [->| ->]; [|simpl; auto].
  apply NoDup_app; auto.
  - apply NoDup_app_remove_r in Hnd. exact Hnd.
  - intros a Ha Ha'. apply returned_incl in Ha'.
    exact (NoDup_app_disjoint _ _ a Hnd Ha Ha').
Qed.

End ConcurrentFacts.

(** *** A checker that runs alone

    Scheduled without interruption, a single checker ends with the rows and
    the store of the sequential [get_new_tasks]. *)

Section LoneChecker.

Import Concurrent.

Variables (rnd : nat -> Z) (now service task_count : Z) (db : GameDB).

Local Abbreviation checker := (mkChecker rnd now service task_count).

Lemma act_lone (c : Checker) (store : GameDB) :
  act (mkWorld [c] store) (Step 0)
  = mkWorld [fst (step [] c store)] (snd (step [] c store)).
Proof.
  unfold act, move. simpl. destruct (step [] c store). reflexivity.
Qed.

Lemma lone_done (n : nat) (tasks : list TaskRow) (store : GameDB) :
  run (repeat (Step 0) n) (mkWorld [checker (Done tasks)] store)
  = mkWorld [checker (Done tasks)] store.
Proof.
  unfold run. induction n as [|n IH]; simpl repeat; [reflexivity|].
  cbn [fold_left]. rewrite act_lone. exact IH.
Qed.

Lemma lone_selecting (candidates : list TaskRow) :
  Forall (fun r => still_open r db = true) candidates ->
  forall locked,
    let tasks :=
      locked ++ firstn (Z.to_nat task_count - length locked) candidates in
    run (repeat (Step 0) (S (length candidates)))
        (mkWorld [checker (Selecting candidates locked)] db)
    = mkWorld [checker (Done tasks)] (start_placements now tasks db).
Proof.
  induction 1 as [|r rest Hr _ IH]; intros locked; cbv zeta.
  - rewrite firstn_nil, app_nil_r. reflexivity.
  - change (run (repeat (Step 0) (S (length (r :: rest)))) ?w)
      with (run (repeat (Step 0) (S (length rest))) (act w (Step 0))).
    rewrite act_lone. unfold step. cbn [ck_phase ck_count ck_now fst snd].
    destruct (Nat.ltb_spec (length locked) (Z.to_nat task_count)) as [Hlt|Hge].
    + cbn [id_in existsb]. rewrite Hr. unfold with_phase.
      cbn [fst snd ck_rnd ck_now ck_service ck_count].
      rewrite IH. cbv zeta.
      rewrite length_app, <- app_assoc. simpl length.
      replace (Z.to_nat task_count - length locked)%nat
        with (S (Z.to_nat task_count - (length locked + 1)))%nat by lia.
      reflexivity.
    + unfold with_phase. cbn [fst snd ck_rnd ck_now ck_service ck_count].
      rewrite lone_done.
      replace (Z.to_nat task_count - length locked)%nat with 0%nat by lia.
      rewrite firstn_O, app_nil_r. reflexivity.
Qed.

Lemma open_rows_still_open :
  Forall (fun r => still_open r db = true)
         (order_by_random rnd (open_task_rows service db)).
Proof.
  apply Forall_forall. intros r Hr.
  apply (Permutation_in r (order_by_random_perm _ _)) in Hr.
  apply open_task_rows_In in Hr.
  destruct Hr as [flag [control [team [Hf [_ [_ [Hnull [_ [_ [_ Hrow]]]]]]]]]].
  unfold still_open. apply existsb_exists. exists flag. split; [exact Hf|].
  rewrite Hrow, Hnull. simpl. rewrite Z.eqb_refl. reflexivity.
Qed.

(** X18: the sequential function is the run of a lone checker: scheduled
    without interruption, a single checker of the interleaving model ends
    with exactly the rows, the tasks and the store of [get_new_tasks]. *)
Lemma lone_checker_get_new_tasks :
  0 <= task_count ->
  exists n,
    run (repeat (Step 0) n) (mkWorld [checker Calling] db)
    = mkWorld [checker (Done (selected_rows rnd service task_count db))]
              (snd (get_new_tasks rnd now service task_count false db))
    /\ fst (get_new_tasks rnd now service task_count false db)
       = Returned (map task_of_row (selected_rows rnd service task_count db)).
Proof.
  intros Hcount.
  exists (S (S (length (order_by_random rnd (open_task_rows service db))))).
  rewrite get_new_tasks_normal by exact Hcount. split; [|reflexivity].
  change (run (repeat (Step 0) (S ?n)) ?w)
    with (run (repeat (Step 0) n) (act w (Step 0))).
  rewrite act_lone. unfold step. cbn [ck_phase ck_count ck_rnd ck_service].
  destruct (Z.ltb_spec task_count 0) as [Hneg|_]; [lia|].
  unfold with_phase. cbn [fst snd ck_rnd ck_now ck_service ck_count].
  rewrite (lone_selecting _ open_rows_still_open []). cbv zeta.
  simpl length. rewrite Nat.sub_0_r. reflexivity.
Qed.

End LoneChecker.

(** C8: however the steps of any number of checkers inside [get_new_tasks]
    are interleaved, and whichever transactions the database aborts, no flag
    is returned twice, neither to two checkers nor twice to one, and every
    returned flag was open in the store the checkers started from. *)
Theorem claims_exclusive (schedule : list Concurrent.Action) (w0 : Concurrent.World) :
  schema_ok (Concurrent.w_db w0) ->
  Concurrent.all_calling w0 ->
  NoDup (concat (map Concurrent.returned_ids
                     (Concurrent.w_checkers (Concurrent.run schedule w0))))
  /\ Forall (Concurrent.was_open (Concurrent.w_db w0))
            (concat (map Concurrent.returned_ids
                         (Concurrent.w_checkers (Concurrent.run schedule w0)))).
Proof.
  intros Hschema Hcalling.
  pose proof (ConcurrentFacts.run_invariant (Concurrent.w_db w0) schedule w0
                (ConcurrentFacts.invariant_start _ w0 eq_refl Hschema Hcalling))
    as [_ [_ [Hnd Hok]]].
  split; [apply ConcurrentFacts.returned_nodup; exact Hnd|].
  apply Forall_forall. intros id Hin.
  apply in_concat in Hin. destruct Hin as [ids [Hids Hin]].
  apply in_map_iff in Hids. destruct Hids as [c [<- Hc]].
  rewrite Forall_forall in Hok. specialize (Hok c Hc).
  unfold Concurrent.returned_ids in Hin. unfold Concurrent.checker_ok in Hok.
  destruct (Concurrent.ck_phase c) as [|cands locked|tasks|e]; try contradiction.
  destruct Hok as [Hwas _]. rewrite Forall_forall in Hwas.
  apply in_map_iff in Hin. destruct Hin as [r [<- Hr]]. apply Hwas. exact Hr.
Qed.

Lemma sample_world_schema : schema_ok (Concurrent.w_db sample_world).
Proof.
  unfold schema_ok, flag_ids_unique, team_ids_unique, control_singleton. simpl.
  repeat split; try lia;
    repeat (constructor; [simpl; intuition discriminate|]); constructor.
Qed.

(** Three checkers on six open flags: all six are handed out, each once. *)
Lemma claims_exclusive_witness :
  map Concurrent.returned_ids
      (Concurrent.w_checkers (Concurrent.run sample_schedule sample_world))
  = [[1; 2]; [6; 5; 4]; [3]]
  /\ NoDup (concat (map Concurrent.returned_ids
                        (Concurrent.w_checkers
                           (Concurrent.run sample_schedule sample_world)))).
Proof.
  split; [reflexivity|].
  apply (claims_exclusive sample_schedule sample_world).
  - exact sample_world_schema.
  - repeat constructor.
Defined.

(** * Further properties of the checker database layer *)

(** ** State store as a finite map *)

Lemma state_key_eqb_false (service team_net_no : Z) (identifier : string)
    (row : CheckerState) :
  state_key row <> (service, team_net_no, identifier) ->
  state_key_eqb service team_net_no identifier row = false.
Proof.
  intros Hne. destruct (state_key_eqb service team_net_no identifier row) eqn:E;
    [|reflexivity].
  apply state_key_eqb_spec in E. contradiction.
Qed.

(** An upsert leaves the rows of every other key as they are. *)
Lemma select_state_upsert_other
    (service team_net_no : Z) (identifier : string) (data : list byte)
    (service' team_net_no' : Z) (identifier' : string) (db : StateDB) :
  (service, team_net_no, identifier) <> (service', team_net_no', identifier') ->
  select_state service' team_net_no' identifier'
               (upsert_state service team_net_no identifier data db)
  = select_state service' team_net_no' identifier' db.
Proof.
  intros Hne. unfold select_state, upsert_state.
  destruct (existsb (state_key_eqb service team_net_no identifier) db).
  - f_equal. induction db as [|row db IH]; simpl; [reflexivity|].
    destruct (state_key_eqb service team_net_no identifier row) eqn:K.
    + apply state_key_eqb_spec in K.
      rewrite (state_key_eqb_false service' team_net_no' identifier' row)
        by (rewrite K; exact Hne).
      rewrite (state_key_eqb_false service' team_net_no' identifier'
                 (mkCheckerState (cs_service_id row) (cs_team_net_no row)
                                 (cs_identifier row) data))
        by (unfold state_key in *; simpl; rewrite K; exact Hne).
      exact IH.
    + destruct (state_key_eqb service' team_net_no' identifier' row);
        rewrite IH; reflexivity.
  - rewrite filter_app. simpl.
    rewrite (state_key_eqb_false service' team_net_no' identifier'
               (mkCheckerState service team_net_no identifier data))
      by exact Hne.
    rewrite app_nil_r. reflexivity.
Qed.

Lemma upsert_state_again
    (service team_net_no : Z) (identifier : string) (data : list byte) (db : StateDB) :
  upsert_state service team_net_no identifier data
               (upsert_state service team_net_no identifier data db)
  = upsert_state service team_net_no identifier data db.
Proof.
  assert (Hnew : state_key_eqb service team_net_no identifier
                   (mkCheckerState service team_net_no identifier data) = true)
    by (apply state_key_eqb_spec; reflexivity).
  assert (Hkept : forall row,
             state_key_eqb service team_net_no identifier row = true ->
             state_key_eqb service team_net_no identifier
               (mkCheckerState (cs_service_id row) (cs_team_net_no row)
                               (cs_identifier row) data) = true).
  { intros row K. apply state_key_eqb_spec. apply state_key_eqb_spec in K. exact K. }
  unfold upsert_state at 2.
  destruct (existsb (state_key_eqb service team_net_no identifier) db) eqn:E.
  - set (g := fun row =>
                if state_key_eqb service team_net_no identifier row
                then mkCheckerState (cs_service_id row) (cs_team_net_no row)
                                    (cs_identifier row) data
                else row).
    assert (Hex : existsb (state_key_eqb service team_net_no identifier) (map g db) = true).
    { apply existsb_exists in E. destruct E as [row [Hin K]].
      apply existsb_exists. exists (g row). split; [apply in_map; exact Hin|].
      unfold g. rewrite K. apply Hkept. exact K. }
    unfold upsert_state. rewrite Hex, E. fold g.
    rewrite map_map. apply map_ext. intros row. unfold g.
    destruct (state_key_eqb service team_net_no identifier row) eqn:K.
    + rewrite (Hkept row K). reflexivity.
    + rewrite K. reflexivity.
  - unfold upsert_state. rewrite E, existsb_app. simpl. rewrite Hnew, orb_true_r.
    rewrite map_app. simpl. rewrite Hnew. f_equal.
    rewrite <- (map_id db) at 2. apply map_ext_in. intros row Hin.
    destruct (state_key_eqb service team_net_no identifier row) eqn:K; [|reflexivity].
    exfalso. assert (existsb (state_key_eqb service team_net_no identifier) db = true);
      [|congruence].
    apply existsb_exists. exists row. auto.
Qed.

(** X1: [store_state] is idempotent: storing the same blob under the same
    key a second time returns again and leaves the table exactly as the
    first call left it. *)
Theorem store_state_idempotent
    (service team_net_no : Z) (identifier : string) (data : list byte) (db : StateDB) :
  store_state service team_net_no identifier data false
    (snd (store_state service team_net_no identifier data false db))
  = (Returned tt, snd (store_state service team_net_no identifier data false db)).
Proof.
  rewrite !store_state_normal. simpl snd. rewrite upsert_state_again. reflexivity.
Qed.

(** X2: a [store_state] under one key, in either permission mode, does not
    change what [load_state] returns for any other key. *)
Theorem store_state_other_key
    (service team_net_no : Z) (identifier : string) (data : list byte)
    (service' team_net_no' : Z) (identifier' : string) (p p' : bool) (db : StateDB) :
  (service, team_net_no, identifier) <> (service', team_net_no', identifier') ->
  fst (load_state service' team_net_no' identifier' p'
         (snd (store_state service team_net_no identifier data p db)))
  = fst (load_state service' team_net_no' identifier' p' db).
Proof.
  intros Hne. destruct p.
  - rewrite store_state_restricted. reflexivity.
  - rewrite store_state_normal, !load_state_eq. simpl.
    rewrite select_state_upsert_other by exact Hne. reflexivity.
Qed.

Lemma store_state_other_key_witness :
  fst (load_state 1 102 "flagid" false
         (snd (store_state 1 103 "flagid" [x09] false sample_state_db)))
  = Returned (Some [x01; x02]).
Proof.
  rewrite (store_state_other_key 1 103 "flagid" [x09] 1 102 "flagid" false false
             sample_state_db).
  - reflexivity.
  - intros H. discriminate H.
Defined.

Lemma run_store_select (service team_net_no : Z) (identifier : string)
    (call : StoreCall) (db : StateDB) :
  fetchone (select_state service team_net_no identifier (run_store db call))
  = last_stored (service, team_net_no, identifier) [call]
      (fetchone (select_state service team_net_no identifier db)).
Proof.
  destruct call as [[[[service' team'] identifier'] data] prohibit].
  unfold run_store, last_stored. simpl fold_left. cbn [fst snd].
  destruct prohibit; simpl negb; cbn [andb].
  - rewrite store_state_restricted. reflexivity.
  - rewrite store_state_normal. simpl snd.
    destruct ((service' =? service) && (team' =? team_net_no)
              && String.eqb identifier' identifier) eqn:K.
    + rewrite !andb_true_iff, !Z.eqb_eq, String.eqb_eq in K.
      destruct K as [[-> ->] ->].
      rewrite select_state_upsert.
      destruct (length (select_state service team_net_no identifier db)); reflexivity.
    + rewrite select_state_upsert_other; [reflexivity|].
      intros Heq. injection Heq as -> -> ->.
      rewrite !Z.eqb_refl, String.eqb_refl in K. discriminate K.
Qed.

(** X3: after any sequence of [store_state] calls on any table,
    [load_state] returns for every key what a finite map would hold: the
    blob of the last call for that key that was not read-restricted, and
    what the key held before the sequence if there was none. *)
Theorem load_state_last_stored
    (service team_net_no : Z) (identifier : string) (p : bool)
    (calls : list StoreCall) (db : StateDB) :
  load_state service team_net_no identifier p (run_stores calls db)
  = (Returned (last_stored (service, team_net_no, identifier) calls
                 (fetchone (select_state service team_net_no identifier db))),
     run_stores calls db).
Proof.
  rewrite load_state_eq. f_equal. f_equal.
  revert db. induction calls as [|call calls IH]; intros db; [reflexivity|].
  change (run_stores (call :: calls) db) with (run_stores calls (run_store db call)).
  rewrite IH, run_store_select. reflexivity.
Qed.

(** ** Reading the competition and the services *)

Lemma list_prod_nil_r {A B} (l : list A) : list_prod l (@nil B) = [].
Proof. induction l as [|a l IH]; simpl; auto. Qed.

Lemma open_task_rows_unconfigured (service : Z) (db : GameDB) :
  scoring_gamecontrol db = [] -> open_task_rows service db = [].
Proof.
  intros Hctl. unfold open_task_rows. rewrite Hctl, list_prod_nil_r. reflexivity.
Qed.

Lemma start_placements_nil (now : Z) (db : GameDB) : start_placements now [] db = db.
Proof. reflexivity. Qed.

(** X4: while [scoring_gamecontrol] has no row, [get_control_info] and
    [get_current_tick] raise [DBDataError] (in either permission mode),
    whereas [get_task_count] returns 0 and [get_new_tasks], in the normal
    mode, returns no task without raising, whatever flags the table holds;
    all four leave the store as it was. *)
Theorem unconfigured_game_control
    (rnd : nat -> Z) (now service task_count : Z) (p : bool) (db : GameDB) :
  scoring_gamecontrol db = [] ->
  0 <= task_count ->
  get_control_info p db = (Raised DBDataError, db)
  /\ get_current_tick p db = (Raised DBDataError, db)
  /\ get_task_count service p db = (Returned 0, db)
  /\ get_new_tasks rnd now service task_count false db = (Returned [], db).
Proof.
  intros Hctl Hcount.
  assert (Hrows : selected_rows rnd service task_count db = []).
  { unfold selected_rows. rewrite open_task_rows_unconfigured by exact Hctl.
    unfold order_by_random, limit. simpl. apply firstn_nil. }
  repeat split.
  - unfold get_control_info. rewrite transaction_query, Hctl. reflexivity.
  - unfold get_current_tick. rewrite transaction_query, Hctl. reflexivity.
  - unfold get_task_count. rewrite transaction_query.
    unfold select_task_count_rows. rewrite Hctl, list_prod_nil_r. reflexivity.
  - rewrite get_new_tasks_normal by exact Hcount. rewrite Hrows. reflexivity.
Qed.

Lemma unconfigured_game_control_witness :
  get_current_tick false
    (mkGameDB [] sample_services sample_teams [mkFlag 1 1 2 0 None None] [])
  = (Raised DBDataError,
     mkGameDB [] sample_services sample_teams [mkFlag 1 1 2 0 None None] [])
  /\ get_task_count 1 false
       (mkGameDB [] sample_services sample_teams [mkFlag 1 1 2 0 None None] [])
     = (Returned 0,
        mkGameDB [] sample_services sample_teams [mkFlag 1 1 2 0 None None] []).
Proof.
  destruct (unconfigured_game_control (fun i => Z.of_nat i) 1000 1 3 false
              (mkGameDB [] sample_services sample_teams [mkFlag 1 1 2 0 None None] []))
    as [_ [Htick [Hcount _]]].
  - reflexivity.
  - lia.
  - split; [exact Htick | exact Hcount].
Defined.

Lemma filter_head_In {A} (f : A -> bool) (l : list A) (a : A) :
  fetchone (filter f l) = Some a -> In a l /\ f a = true.
Proof.
  unfold fetchone. intros H. apply filter_In.
  destruct (filter f l) as [|x xs]; [discriminate H|].
  injection H as ->. left. reflexivity.
Qed.

Lemma filter_head_none {A} (f : A -> bool) (l : list A) :
  fetchone (filter f l) = None -> forall a, In a l -> f a = false.
Proof.
  unfold fetchone. intros H a Hin.
  destruct (f a) eqn:E; [|reflexivity].
  assert (Hf : In a (filter f l)) by (apply filter_In; auto).
  destruct (filter f l); [destruct Hf | discriminate H].
Qed.

(** X5: with unique slugs, [get_service_attributes] asked for the slug of a
    service of the table returns the id and the name of that very service;
    asked for a slug no service has it raises [DBDataError]; in both cases
    the store is left as it was, in either permission mode. *)
Theorem get_service_attributes_lookup (p : bool) (db : GameDB) :
  NoDup (map svc_slug (scoring_service db)) ->
  (forall service,
      In service (scoring_service db) ->
      get_service_attributes (svc_slug service) p db
      = (Returned (mkServiceAttributes (svc_id service) (svc_name service)), db))
  /\ (forall slug,
         ~ In slug (map svc_slug (scoring_service db)) ->
         get_service_attributes slug p db = (Raised DBDataError, db)).
Proof.
  intros Hunique. split.
  - intros service Hin. unfold get_service_attributes. rewrite transaction_query.
    destruct (fetchone (filter (fun s => String.eqb (svc_slug s) (svc_slug service))
                               (scoring_service db))) as [found|] eqn:E.
    + destruct (filter_head_In _ _ _ E) as [Hfound Hslug].
      apply String.eqb_eq in Hslug.
      assert (found = service) as -> by (eapply NoDup_map_eq; eauto).
      unfold fetchone in *.
      destruct (filter _ (scoring_service db)) as [|x xs]; [discriminate E|].
      injection E as ->. reflexivity.
    + pose proof (filter_head_none _ _ E service Hin) as Hfalse.
      simpl in Hfalse. rewrite String.eqb_refl in Hfalse. discriminate Hfalse.
  - intros slug Hnot. unfold get_service_attributes. rewrite transaction_query.
    destruct (fetchone (filter (fun s => String.eqb (svc_slug s) slug)
                               (scoring_service db))) as [found|] eqn:E.
    + destruct (filter_head_In _ _ _ E) as [Hfound Hslug].
      apply String.eqb_eq in Hslug. exfalso. apply Hnot.
      rewrite <- Hslug. apply in_map. exact Hfound.
    + unfold fetchone in *.
      destruct (filter _ (scoring_service db)); [reflexivity | discriminate E].
Qed.

Lemma get_service_attributes_lookup_witness :
  get_service_attributes "s2" false sample_db
  = (Returned (mkServiceAttributes 2 "service2"), sample_db)
  /\ get_service_attributes "s9" false sample_db = (Raised DBDataError, sample_db).
Proof.
  assert (Hunique : NoDup (map svc_slug (scoring_service sample_db))).
  { simpl. repeat (constructor; [simpl; intuition discriminate|]). constructor. }
  destruct (get_service_attributes_lookup false sample_db Hunique) as [Hfound Hnone].
  split.
  - apply (Hfound (mkService 2 "service2" "s2")). simpl. auto.
  - apply Hnone. simpl. intros [H|[H|[]]]; discriminate H.
Defined.

(** ** How many tasks a call hands out *)

Lemma selected_rows_length_min (rnd : nat -> Z) (service task_count : Z) (db : GameDB) :
  0 <= task_count ->
  Z.of_nat (length (selected_rows rnd service task_count db))
  = Z.min task_count (Z.of_nat (length (open_task_rows service db))).
Proof.
  intros Hcount. unfold selected_rows, limit.
  rewrite length_firstn, (Permutation_length (order_by_random_perm rnd _)). lia.
Qed.

(** X6: in the normal permission mode a call of [get_new_tasks] with a
    non-negative count returns exactly min(count, number of rows of the task
    query) tasks, whatever the random order; in particular a count of 0
    returns no task. *)
Theorem get_new_tasks_count
    (rnd : nat -> Z) (now service task_count : Z) (db : GameDB) :
  0 <= task_count ->
  exists tasks db',
    get_new_tasks rnd now service task_count false db = (Returned tasks, db')
    /\ Z.of_nat (length tasks)
       = Z.min task_count (Z.of_nat (length (open_task_rows service db))).
Proof.
  intros Hcount. eexists. eexists.
  split; [apply get_new_tasks_normal; exact Hcount|].
  rewrite length_map. apply selected_rows_length_min. exact Hcount.
Qed.

Lemma get_new_tasks_count_witness :
  exists tasks db',
    get_new_tasks (fun i => Z.of_nat i) 1000 1 5 false sample_db = (Returned tasks, db')
    /\ Z.of_nat (length tasks) = 1.
Proof.
  destruct (get_new_tasks_count (fun i => Z.of_nat i) 1000 1 5 sample_db)
    as [tasks [db' [Hcall Hlen]]]; [lia|].
  exists tasks, db'. split; [exact Hcall | exact Hlen].
Defined.

(** ** Claiming all open tasks of a service *)

Lemma open_rows_le_task_count (service : Z) (db : GameDB) :
  schema_ok db ->
  (length (open_task_rows service db) <= length (select_task_count_rows service db))%nat.
Proof.
  intros Hschema.
  rewrite <- (length_map row_flag_id (open_task_rows service db)).
  rewrite <- (length_map (fun fc => flag_id (fst fc)) (select_task_count_rows service db)).
  apply NoDup_incl_length; [apply open_task_rows_nodup; exact Hschema|].
  intros id Hin. apply in_map_iff in Hin. destruct Hin as [row [<- Hrow]].
  apply open_task_rows_In in Hrow.
  destruct Hrow as [flag [control [team [Hf [Hc [_ [_ [Htick [Hsvc [_ ->]]]]]]]]]].
  apply in_map_iff. exists (flag, control). split; [reflexivity|].
  unfold select_task_count_rows. apply filter_In. split.
  - apply in_prod_iff. auto.
  - rewrite andb_true_iff, !Z.eqb_eq. auto.
Qed.

(** Once the flags of all rows of the task query are marked, the query of
    the same service has no row left. *)
Lemma open_task_rows_claimed (now service : Z) (rows : list TaskRow) (db : GameDB) :
  (forall row, In row (open_task_rows service db) ->
               In (row_flag_id row) (map row_flag_id rows)) ->
  open_task_rows service (start_placements now rows db) = [].
Proof.
  intros Hall. apply incl_l_nil. intros row Hrow. exfalso.
  apply open_task_rows_In in Hrow.
  destruct Hrow as [flag' [control [team [Hf [Hc [Ht [Hnull [Htick [Hsvc [Hteam ->]]]]]]]]]].
  rewrite start_placements_spec in Hf, Hc, Ht. simpl in Hf, Hc, Ht.
  apply in_map_iff in Hf. destruct Hf as [flag [Hflag Hf]].
  destruct (id_in (flag_id flag) (map row_flag_id rows)) eqn:E; subst flag'.
  - discriminate Hnull.
  - assert (Hin : In (row_flag_id (mkTaskRow (flag_id flag) (protecting_team_id flag)
                                             (tick flag) (net_number team)))
                     (map row_flag_id rows)).
    { apply Hall. apply open_task_rows_In. exists flag, control, team.
      repeat split; auto. }
    simpl in Hin. apply id_in_spec in Hin. congruence.
Qed.

(** X7: sizing the batch by [get_task_count], as the checker does, claims
    every open task of the service: the call returns one task per row of
    the task query (in some order), and any later call for the service
    returns no task and changes nothing. *)
Theorem get_new_tasks_drains
    (rnd : nat -> Z) (now service n : Z) (p : bool) (db : GameDB) :
  schema_ok db ->
  get_task_count service p db = (Returned n, db) ->
  exists rows db',
    get_new_tasks rnd now service n false db = (Returned (map task_of_row rows), db')
    /\ Permutation rows (open_task_rows service db)
    /\ forall rnd' now' k,
         0 <= k ->
         get_new_tasks rnd' now' service k false db' = (Returned [], db').
Proof.
  intros Hschema Hcount.
  unfold get_task_count in Hcount. rewrite transaction_query in Hcount.
  injection Hcount as <-.
  set (n := Z.of_nat (length (select_task_count_rows service db))).
  assert (Hn : 0 <= n) by (unfold n; lia).
  assert (Hrows : selected_rows rnd service n db
                  = order_by_random rnd (open_task_rows service db)).
  { unfold selected_rows, limit. apply firstn_all2.
    rewrite (Permutation_length (order_by_random_perm rnd _)).
    pose proof (open_rows_le_task_count service db Hschema). unfold n. lia. }
  exists (selected_rows rnd service n db).
  exists (start_placements now (selected_rows rnd service n db) db).
  split; [apply get_new_tasks_normal; exact Hn|].
  split; [rewrite Hrows; apply order_by_random_perm|].
  intros rnd' now' k Hk.
  assert (Hnone : selected_rows rnd' service k
                    (start_placements now (selected_rows rnd service n db) db) = []).
  { unfold selected_rows at 1. rewrite open_task_rows_claimed.
    - unfold order_by_random, limit. simpl. apply firstn_nil.
    - intros row Hrow. apply in_map. rewrite Hrows.
      eapply Permutation_in; [symmetry; apply order_by_random_perm | exact Hrow]. }
  rewrite get_new_tasks_normal by exact Hk. rewrite Hnone. reflexivity.
Qed.

Lemma sample_db_schema : schema_ok sample_db.
Proof.
  unfold schema_ok, team_ids_unique, control_singleton.
  split; [exact sample_db_ids_unique|]. simpl. split; [|lia].
  repeat (constructor; [simpl; intuition discriminate|]). constructor.
Qed.

Lemma get_new_tasks_drains_witness :
  exists rows db',
    get_new_tasks (fun i => Z.of_nat i) 1000 1 3 false sample_db
    = (Returned (map task_of_row rows), db')
    /\ Permutation rows (open_task_rows 1 sample_db)
    /\ get_new_tasks (fun i => Z.of_nat i) 1001 1 3 false db' = (Returned [], db').
Proof.
  destruct (get_new_tasks_drains (fun i => Z.of_nat i) 1000 1 3 false sample_db)
    as [rows [db' [Hcall [Hperm Hlater]]]].
  - exact sample_db_schema.
  - reflexivity.
  - exists rows, db'. split; [exact Hcall|]. split; [exact Hperm|].
    apply Hlater. lia.
Defined.

(** ** Open tasks before and after a call *)

Lemma NoDup_map_filter {A B} (f : A -> B) (q : A -> bool) (l : list A) :
  NoDup (map f l) -> NoDup (map f (filter q l)).
Proof.
  induction l as [|a l IH]; simpl; intros Hnd; [constructor|].
  inversion Hnd as [|x xs Hnotin Hnd']; subst.
  destruct (q a); simpl; [constructor|]; auto.
  intros Hin. apply Hnotin. apply in_map_iff in Hin.
  destruct Hin as [b [Hb Hin]]. apply filter_In in Hin.
  rewrite <- Hb. apply in_map. apply Hin.
Qed.

Lemma selected_rows_nodup (rnd : nat -> Z) (service task_count : Z) (db : GameDB) :
  schema_ok db -> NoDup (map row_flag_id (selected_rows rnd service task_count db)).
Proof.
  intros Hschema. unfold selected_rows, limit. rewrite <- firstn_map.
  eapply NoDup_app_remove_r. rewrite firstn_skipn.
  eapply Permutation_NoDup;
    [apply Permutation_map; symmetry; apply order_by_random_perm|].
  apply open_task_rows_nodup. exact Hschema.
Qed.

(** The flags marked by a call are as many as the rows it selected. *)
Lemma marked_flags_length (rnd : nat -> Z) (service task_count : Z) (db : GameDB) :
  schema_ok db ->
  length (filter (fun flag => id_in (flag_id flag)
                                (map row_flag_id (selected_rows rnd service task_count db)))
                 (scoring_flag db))
  = length (selected_rows rnd service task_count db).
Proof.
  intros Hschema.
  set (ids := map row_flag_id (selected_rows rnd service task_count db)).
  rewrite <- (length_map flag_id (filter _ _)).
  rewrite <- (length_map row_flag_id (selected_rows rnd service task_count db)).
  fold ids. apply Nat.le_antisymm; apply NoDup_incl_length.
  - apply NoDup_map_filter. apply Hschema.
  - intros id Hin. apply in_map_iff in Hin. destruct Hin as [flag [<- Hin]].
    apply filter_In in Hin. apply id_in_spec. apply Hin.
  - apply selected_rows_nodup. exact Hschema.
  - intros id Hin. pose proof Hin as Hid.
    apply in_map_iff in Hin. destruct Hin as [row [Hrow Hin]].
    apply selected_rows_open, open_task_rows_In in Hin.
    destruct Hin as [flag [control [team [Hf [_ [_ [_ [_ [_ [_ Heq]]]]]]]]]].
    rewrite Heq in Hrow. simpl in Hrow.
    apply in_map_iff. exists flag. split; [exact Hrow|].
    apply filter_In. split; [exact Hf|]. apply id_in_spec. rewrite Hrow. exact Hid.
Qed.

Lemma filter_length_split {A} (P Q : A -> bool) (g : A -> A) (l : list A) :
  (forall a, In a l -> Q a = true -> P a = true /\ P (g a) = false) ->
  length (filter P l)
  = (length (filter P (map (fun a => if Q a then g a else a) l))
     + length (filter Q l))%nat.
Proof.
  induction l as [|a l IH]; intros H; [reflexivity|].
  assert (IH' := IH (fun b Hb => H b (or_intror Hb))).
  cbn [filter map]. destruct (Q a) eqn:E.
  - destruct (H a (or_introl eq_refl) E) as [-> ->]. simpl. lia.
  - destruct (P a); simpl; lia.
Qed.

(** X8: with the schema constraints and the single control row, a call of
    [get_new_tasks] lowers the number of open flags of the service at the
    current tick by exactly the number of tasks it returns: no flag is
    marked without being handed out, and none is handed out twice. *)
Theorem get_new_tasks_accounting
    (rnd : nat -> Z) (now service task_count : Z) (db : GameDB) (control : GameControl) :
  schema_ok db ->
  scoring_gamecontrol db = [control] ->
  0 <= task_count ->
  exists tasks db',
    get_new_tasks rnd now service task_count false db = (Returned tasks, db')
    /\ count_open_at service (current_tick control) db'
       = count_open_at service (current_tick control) db - Z.of_nat (length tasks).
Proof.
  intros Hschema Hctl Hcount. eexists. eexists.
  split; [apply get_new_tasks_normal; exact Hcount|].
  rewrite length_map, <- (marked_flags_length rnd service task_count db Hschema).
  unfold count_open_at. rewrite start_placements_spec. simpl scoring_flag.
  rewrite (filter_length_split
             (fun flag => is_null (placement_start flag) && (service_id flag =? service)
                          && (tick flag =? current_tick control))
             (fun flag => id_in (flag_id flag)
                            (map row_flag_id (selected_rows rnd service task_count db)))
             (set_placement_start now) (scoring_flag db)).
  - lia.
  - intros flag Hin Hid. apply id_in_spec in Hid.
    destruct (selected_flag rnd service task_count db flag (proj1 Hschema) Hin Hid)
      as [Hnull [Hsvc [c [Hc Htick]]]].
    rewrite Hctl in Hc. destruct Hc as [<-|[]].
    split; [|reflexivity].
    rewrite Hnull, Hsvc, Htick, !Z.eqb_refl. reflexivity.
Qed.

Lemma get_new_tasks_accounting_witness :
  exists tasks db',
    get_new_tasks (fun i => Z.of_nat i) 1000 1 5 false sample_db = (Returned tasks, db')
    /\ count_open_at 1 5 db' = 1 - Z.of_nat (length tasks).
Proof.
  destruct (get_new_tasks_accounting (fun i => Z.of_nat i) 1000 1 5 sample_db
              (mkGameControl 0 480 180 5))
    as [tasks [db' [Hcall Hopen]]].
  - exact sample_db_schema.
  - reflexivity.
  - lia.
  - exists tasks, db'. split; [exact Hcall | exact Hopen].
Defined.

(** ** From a claimed task to its committed result *)

Lemma fetchone_map {A B} (f : A -> B) (l : list A) :
  fetchone (map f l) = option_map f (fetchone l).
Proof. destruct l; reflexivity. Qed.

(** With unique net numbers the lookup of [commit_result] finds the team. *)
Lemma select_team_id_found (team : Team) (db : GameDB) :
  NoDup (map net_number (registration_team db)) ->
  In team (registration_team db) ->
  fetchone (select_team_id (net_number team) db) = Some (user_id team).
Proof.
  intros Hunique Hin. unfold select_team_id. rewrite fetchone_map.
  destruct (fetchone (filter (fun t => net_number t =? net_number team)
                             (registration_team db))) as [found|] eqn:E.
  - destruct (filter_head_In _ _ _ E) as [Hfound Hnet].
    apply Z.eqb_eq in Hnet.
    assert (found = team) as -> by (eapply NoDup_map_eq; eauto).
    reflexivity.
  - pose proof (filter_head_none _ _ E team Hin) as Hfalse.
    simpl in Hfalse. rewrite Z.eqb_refl in Hfalse. discriminate Hfalse.
Qed.

Lemma start_placements_tables (now : Z) (rows : list TaskRow) (db : GameDB) :
  scoring_gamecontrol (start_placements now rows db) = scoring_gamecontrol db
  /\ scoring_service (start_placements now rows db) = scoring_service db
  /\ registration_team (start_placements now rows db) = registration_team db
  /\ scoring_statuscheck (start_placements now rows db) = scoring_statuscheck db.
Proof. rewrite start_placements_spec. simpl. auto. Qed.

(** X9: with unique net numbers, committing a result with the net number
    and the tick of a task that [get_new_tasks] returned succeeds, appends
    one status check under the task's team id, and closes the flag the task
    was made from: that flag, open before the claim, ends with
    [placement_start] at the time of the claim and [placement_end] at the
    time of the commit; a fallback team id plays no part. *)
Theorem claim_then_commit
    (rnd : nat -> Z) (now now' service task_count result : Z) (fake : option Z)
    (db db1 : GameDB) (tasks : list Task) (task : Task) :
  NoDup (map net_number (registration_team db)) ->
  get_new_tasks rnd now service task_count false db = (Returned tasks, db1) ->
  In task tasks ->
  exists flag db2,
    commit_result now' service (task_team_net_no task) (task_tick task) result
                  false fake db1 = (Returned tt, db2)
    /\ scoring_statuscheck db2
       = scoring_statuscheck db
         ++ [mkStatusCheck service (task_team_id task) (task_tick task) result now']
    /\ In flag (scoring_flag db)
    /\ placement_start flag = None
    /\ In (mkFlag (flag_id flag) service (task_team_id task) (task_tick task)
                  (Some now) (Some now'))
          (scoring_flag db2).
Proof.
  intros Hunique Hcall Htask.
  destruct (Z.lt_ge_cases task_count 0) as [Hneg|Hcount].
  { rewrite get_new_tasks_negative in Hcall by exact Hneg. discriminate Hcall. }
  rewrite get_new_tasks_normal in Hcall by exact Hcount.
  injection Hcall as <- <-.
  apply in_map_iff in Htask. destruct Htask as [row [<- Hrow]].
  pose proof Hrow as Hopen.
  apply selected_rows_open, open_task_rows_In in Hopen.
  destruct Hopen as [flag [control [team [Hf [_ [Ht [Hnull [_ [Hsvc [Hteam Heq]]]]]]]]]].
  destruct (start_placements_tables now (selected_rows rnd service task_count db) db)
    as [_ [_ [Hteams Hsc]]].
  exists flag. eexists. rewrite commit_result_eq.
  assert (Hfound : fetchone (select_team_id (task_team_net_no (task_of_row row))
                               (start_placements now
                                  (selected_rows rnd service task_count db) db))
                   = Some (user_id team)).
  { rewrite Heq. simpl. apply select_team_id_found; rewrite Hteams; assumption. }
  rewrite Hfound. split; [reflexivity|].
  rewrite Heq. simpl. rewrite Hsc, Hteam.
  split; [reflexivity|]. split; [exact Hf|]. split; [exact Hnull|].
  rewrite start_placements_spec. simpl. rewrite map_map.
  apply in_map_iff. exists flag. split; [|exact Hf].
  assert (Hid : id_in (flag_id flag)
                  (map row_flag_id (selected_rows rnd service task_count db)) = true).
  { apply id_in_spec. apply in_map_iff. exists row. split; [|exact Hrow].
    rewrite Heq. reflexivity. }
  rewrite Hid. unfold placement_cond, set_placement_end. simpl.
  rewrite Hsvc, Hteam, !Z.eqb_refl. reflexivity.
Qed.

Lemma claim_then_commit_witness :
  exists flag db2,
    commit_result 1010 1 102 5 0 false None
      (snd (get_new_tasks (fun i => Z.of_nat i) 1000 1 5 false sample_db))
    = (Returned tt, db2)
    /\ scoring_statuscheck db2 = [mkStatusCheck 1 2 5 0 1010]
    /\ In flag (scoring_flag sample_db)
    /\ placement_start flag = None
    /\ In (mkFlag (flag_id flag) 1 2 5 (Some 1000) (Some 1010)) (scoring_flag db2).
Proof.
  apply (claim_then_commit (fun i => Z.of_nat i) 1000 1010 1 5 0 None sample_db
           (snd (get_new_tasks (fun i => Z.of_nat i) 1000 1 5 false sample_db))
           [mkTask 2 102 5] (mkTask 2 102 5)).
  - simpl. repeat (constructor; [simpl; intuition discriminate|]). constructor.
  - reflexivity.
  - left. reflexivity.
Defined.

(** X10: with unique net numbers, a commit for the net number of a
    registered team whose (service, team, tick) matches no flag still
    succeeds and records the status check under that team's id; the flags
    are left exactly as they were, and a fallback team id is not used. *)
Theorem commit_result_without_flag
    (now service tick_no result : Z) (fake : option Z) (team : Team) (db : GameDB) :
  NoDup (map net_number (registration_team db)) ->
  In team (registration_team db) ->
  (forall flag, In flag (scoring_flag db) ->
                ~ (service_id flag = service /\ protecting_team_id flag = user_id team
                   /\ tick flag = tick_no)) ->
  exists db',
    commit_result now service (net_number team) tick_no result false fake db
    = (Returned tt, db')
    /\ scoring_flag db' = scoring_flag db
    /\ scoring_statuscheck db'
       = scoring_statuscheck db ++ [mkStatusCheck service (user_id team) tick_no result now].
Proof.
  intros Hunique Hin Hnone. eexists.
  rewrite commit_result_eq, (select_team_id_found team db Hunique Hin).
  split; [reflexivity|]. simpl. split; [|reflexivity].
  rewrite <- (map_id (scoring_flag db)) at 2. apply map_ext_in.
  intros flag Hflag.
  destruct (placement_cond service (user_id team) tick_no flag) eqn:E; [|reflexivity].
  apply placement_cond_spec in E. exfalso. exact (Hnone flag Hflag E).
Qed.

Lemma commit_result_without_flag_witness :
  exists db',
    commit_result 1000 2 103 5 0 false (Some 4) sample_db = (Returned tt, db')
    /\ scoring_flag db' = scoring_flag sample_db
    /\ scoring_statuscheck db' = [mkStatusCheck 2 3 5 0 1000].
Proof.
  apply (commit_result_without_flag 1000 2 5 0 (Some 4) (mkTeam 3 103) sample_db).
  - simpl. repeat (constructor; [simpl; intuition discriminate|]). constructor.
  - simpl. auto.
  - simpl. intros flag [<-|[<-|[<-|[<-|[<-|[]]]]]]; simpl; intros [H1 [H2 H3]];
      discriminate.
Defined.

(** ** What a commit leaves alone *)

Lemma list_prod_map_l {A B A'} (f : A -> A') (l : list A) (l' : list B) :
  list_prod (map f l) l' = map (fun ab => (f (fst ab), snd ab)) (list_prod l l').
Proof.
  rewrite <- (map_id l') at 1. symmetry. apply (list_prod_map f (fun b => b)).
Qed.

Lemma update_placement_end_open_rows (now service team_id tick_no service' : Z)
    (db : GameDB) :
  open_task_rows service' (update_placement_end now service team_id tick_no db)
  = open_task_rows service' db.
Proof.
  unfold open_task_rows, update_placement_end. simpl.
  rewrite !list_prod_map_l, filter_map_swap, map_map.
  erewrite filter_ext; [apply map_ext|].
  - intros [[flag control] team]. simpl.
    destruct (placement_cond service team_id tick_no flag); reflexivity.
  - intros [[flag control] team]. simpl.
    destruct (placement_cond service team_id tick_no flag); reflexivity.
Qed.

Lemma commit_result_open_rows (now service team_net_no tick_no result : Z) (p : bool)
    (fake : option Z) (service' : Z) (db : GameDB) :
  open_task_rows service'
    (snd (commit_result now service team_net_no tick_no result p fake db))
  = open_task_rows service' db.
Proof.
  rewrite commit_result_eq.
  destruct (match fetchone (select_team_id team_net_no db) with
            | Some team_id => Some team_id
            | None => fake
            end) as [team_id|]; [destruct p|]; simpl snd; try reflexivity.
  rewrite update_placement_end_open_rows. reflexivity.
Qed.

(** X11: a commit never changes which tasks can be claimed: whatever
    [commit_result] is called with, a following [get_new_tasks] returns the
    same outcome as it would have returned before the commit.  Closing a
    flag does not claim it, and no claimed flag is released. *)
Theorem commit_result_keeps_claims
    (now service team_net_no tick_no result : Z) (p : bool) (fake : option Z)
    (rnd : nat -> Z) (now' service' task_count : Z) (p' : bool) (db : GameDB) :
  fst (get_new_tasks rnd now' service' task_count p'
         (snd (commit_result now service team_net_no tick_no result p fake db)))
  = fst (get_new_tasks rnd now' service' task_count p' db).
Proof.
  destruct p'.
  { rewrite !get_new_tasks_restricted. reflexivity. }
  destruct (Z.lt_ge_cases task_count 0) as [Hneg|Hcount].
  { rewrite !get_new_tasks_negative by exact Hneg. reflexivity. }
  assert (Hrows : selected_rows rnd service' task_count
                    (snd (commit_result now service team_net_no tick_no result p fake db))
                  = selected_rows rnd service' task_count db).
  { unfold selected_rows. rewrite commit_result_open_rows. reflexivity. }
  rewrite !get_new_tasks_normal by exact Hcount. rewrite Hrows. reflexivity.
Qed.

(** ** What sequences of checker calls leave alone *)

Lemma get_new_tasks_tables (rnd : nat -> Z) (now service task_count : Z) (p : bool)
    (db : GameDB) :
  let db' := snd (get_new_tasks rnd now service task_count p db) in
  scoring_gamecontrol db' = scoring_gamecontrol db
  /\ scoring_service db' = scoring_service db
  /\ registration_team db' = registration_team db
  /\ scoring_statuscheck db' = scoring_statuscheck db.
Proof.
  cbv zeta. destruct p.
  { rewrite get_new_tasks_restricted. simpl. auto. }
  destruct (Z.lt_ge_cases task_count 0) as [Hneg|Hcount].
  { rewrite get_new_tasks_negative by exact Hneg. simpl. auto. }
  rewrite get_new_tasks_normal by exact Hcount. simpl snd.
  apply start_placements_tables.
Qed.

Lemma commit_result_tables (now service team_net_no tick_no result : Z) (p : bool)
    (fake : option Z) (db : GameDB) :
  let db' := snd (commit_result now service team_net_no tick_no result p fake db) in
  scoring_gamecontrol db' = scoring_gamecontrol db
  /\ scoring_service db' = scoring_service db
  /\ registration_team db' = registration_team db
  /\ (scoring_statuscheck db' = scoring_statuscheck db
      \/ exists team_id,
           scoring_statuscheck db'
           = scoring_statuscheck db
             ++ [mkStatusCheck service team_id tick_no result now]).
Proof.
  cbv zeta. rewrite commit_result_eq.
  destruct (match fetchone (select_team_id team_net_no db) with
            | Some team_id => Some team_id
            | None => fake
            end) as [team_id|]; [destruct p|]; simpl; auto.
  repeat split. right. exists team_id. reflexivity.
Qed.

Lemma committed_by_more (ops ops' : list Op) (sc : StatusCheck) :
  incl ops ops' -> committed_by ops sc -> committed_by ops' sc.
Proof.
  intros Hincl [net [p [fake Hin]]]. exists net, p, fake. apply Hincl. exact Hin.
Qed.

(** X12: the status checks are an append-only log under the checker calls:
    after any sequence of [get_new_tasks] and [commit_result] calls the
    table is the old one followed by new rows, at most one per call, and
    every new row carries the service, tick, status and timestamp of one of
    the commits of the sequence. *)
Theorem statuscheck_append_only (ops : list Op) (db : GameDB) :
  exists added,
    scoring_statuscheck (run_ops ops db) = scoring_statuscheck db ++ added
    /\ (length added <= length ops)%nat
    /\ Forall (committed_by ops) added.
Proof.
  unfold run_ops. revert db.
  induction ops as [|op ops IH]; intros db; simpl.
  - exists []. rewrite app_nil_r. auto.
  - destruct (IH (run_op db op)) as [added [Heq [Hlen Hby]]].
    assert (Hlater : Forall (committed_by (op :: ops)) added).
    { eapply Forall_impl; [|exact Hby].
      intros sc. apply committed_by_more. apply incl_tl, incl_refl. }
    destruct op as [rnd now service task_count p
                   |now service team_net_no tick_no result p fake];
      cbn [run_op] in Heq |- *.
    + destruct (get_new_tasks_tables rnd now service task_count p db)
        as [_ [_ [_ Hsc]]].
      rewrite Hsc in Heq. exists added. auto.
    + destruct (commit_result_tables now service team_net_no tick_no result p fake db)
        as [_ [_ [_ [Hsc|[team_id Hsc]]]]]; rewrite Hsc in Heq.
      * exists added. auto.
      * exists (mkStatusCheck service team_id tick_no result now :: added).
        rewrite Heq, <- app_assoc. split; [reflexivity|].
        split; [simpl; lia|]. constructor; [|exact Hlater].
        exists team_net_no, p, fake. left. reflexivity.
Qed.

Lemma run_ops_tables (ops : list Op) (db : GameDB) :
  scoring_gamecontrol (run_ops ops db) = scoring_gamecontrol db
  /\ scoring_service (run_ops ops db) = scoring_service db
  /\ registration_team (run_ops ops db) = registration_team db.
Proof.
  unfold run_ops. revert db.
  induction ops as [|op ops IH]; intros db; simpl; [auto|].
  destruct (IH (run_op db op)) as [Hc [Hs Ht]]. rewrite Hc, Hs, Ht.
  destruct op as [rnd now service task_count p
                 |now service team_net_no tick_no result p fake]; simpl.
  - destruct (get_new_tasks_tables rnd now service task_count p db)
      as [Hc' [Hs' [Ht' _]]]. auto.
  - destruct (commit_result_tables now service team_net_no tick_no result p fake db)
      as [Hc' [Hs' [Ht' _]]]. auto.
Qed.

(** X13: the checker calls never touch the competition control, the services
    or the teams: after any sequence of [get_new_tasks] and [commit_result]
    calls the three tables are unchanged, so that the current tick, the
    control information and the attributes of every service read the same
    as before. *)
Theorem checker_calls_keep_reference_data
    (ops : list Op) (p : bool) (slug : string) (db : GameDB) :
  scoring_gamecontrol (run_ops ops db) = scoring_gamecontrol db
  /\ scoring_service (run_ops ops db) = scoring_service db
  /\ registration_team (run_ops ops db) = registration_team db
  /\ fst (get_current_tick p (run_ops ops db)) = fst (get_current_tick p db)
  /\ fst (get_control_info p (run_ops ops db)) = fst (get_control_info p db)
  /\ fst (get_service_attributes slug p (run_ops ops db))
     = fst (get_service_attributes slug p db).
Proof.
  destruct (run_ops_tables ops db) as [Hc [Hs Ht]].
  repeat split; auto.
  - unfold get_current_tick. rewrite !transaction_query, Hc.
    destruct (fetchone (map current_tick (scoring_gamecontrol db))); reflexivity.
  - unfold get_control_info. rewrite !transaction_query, Hc.
    destruct (fetchone _); reflexivity.
  - unfold get_service_attributes. rewrite !transaction_query, Hs.
    destruct (fetchone _); reflexivity.
Qed.

(** ** More on concurrent claims *)

(** X14: however the checkers inside [get_new_tasks] are interleaved, a task
    that has been returned to a checker is marked in the store: every flag
    with the id of a returned row has its [placement_start] set, so no
    later task query can select it. *)
Theorem returned_tasks_marked
    (schedule : list Concurrent.Action) (w0 : Concurrent.World)
    (c : Concurrent.Checker) (flag : Flag) :
  schema_ok (Concurrent.w_db w0) ->
  Concurrent.all_calling w0 ->
  In c (Concurrent.w_checkers (Concurrent.run schedule w0)) ->
  In flag (scoring_flag (Concurrent.w_db (Concurrent.run schedule w0))) ->
  In (flag_id flag) (Concurrent.returned_ids c) ->
  placement_start flag <> None.
Proof.
  intros Hschema Hcalling Hc Hflag Hid.
  pose proof (ConcurrentFacts.run_invariant (Concurrent.w_db w0) schedule w0
                (ConcurrentFacts.invariant_start _ w0 eq_refl Hschema Hcalling))
    as [_ [_ [_ Hok]]].
  rewrite Forall_forall in Hok. specialize (Hok c Hc).
  unfold Concurrent.returned_ids in Hid. unfold Concurrent.checker_ok in Hok.
  destruct (Concurrent.ck_phase c) as [|cands locked|tasks|e]; try contradiction.
  destruct Hok as [_ Hmarked]. apply Hmarked; assumption.
Qed.

Lemma returned_tasks_marked_witness :
  placement_start (mkFlag 2 1 3 5 (Some 1000) None) <> None.
Proof.
  apply (returned_tasks_marked sample_schedule sample_world
           (Concurrent.mkChecker (fun i => Z.of_nat i) 1000 1 2
              (Concurrent.Done [mkTaskRow 1 2 5 102; mkTaskRow 2 3 5 103]))
           (mkFlag 2 1 3 5 (Some 1000) None)).
  - exact sample_world_schema.
  - repeat constructor.
  - vm_compute. left. reflexivity.
  - vm_compute. right. left. reflexivity.
  - vm_compute. right. left. reflexivity.
Defined.

Section Limit.

Import Concurrent.

(** What a checker was called with. *)
Local Abbreviation call_of := (fun c : Checker => (ck_service c, ck_count c, ck_now c)).

Lemma step_within_limit (foreign : list Z) (c : Checker) (db : GameDB) :
  within_limit c ->
  within_limit (fst (step foreign c db))
  /\ call_of (fst (step foreign c db)) = call_of c.
Proof.
  unfold within_limit, step. intros Hc.
  destruct (ck_phase c) as [|cands locked|tasks|e] eqn:Hphase.
  - destruct (ck_count c <? 0); simpl; split; auto; lia.
  - destruct cands as [|r rest]; [simpl; auto|].
    destruct (Nat.ltb_spec (length locked) (Z.to_nat (ck_count c))) as [Hlt|Hge].
    + destruct (id_in (row_flag_id r) foreign).
      * simpl. rewrite Hphase. auto.
      * destruct (still_open r db); simpl; split; auto.
        rewrite length_app. simpl. lia.
    + simpl. auto.
  - simpl. rewrite Hphase. auto.
  - simpl. rewrite Hphase. auto.
Qed.

Lemma abort_within_limit (foreign : list Z) (c : Checker) (db : GameDB) :
  within_limit c ->
  within_limit (fst (abort foreign c db))
  /\ call_of (fst (abort foreign c db)) = call_of c.
Proof.
  unfold within_limit, abort. intros Hc.
  destruct (ck_phase c) eqn:Hphase; simpl; try rewrite Hphase; auto.
Qed.

Lemma move_within_limit (f : list Z -> Checker -> GameDB -> Checker * GameDB)
    (w : World) (i : nat) :
  (forall foreign c db,
      within_limit c ->
      within_limit (fst (f foreign c db)) /\ call_of (fst (f foreign c db)) = call_of c) ->
  Forall within_limit (w_checkers w) ->
  Forall within_limit (w_checkers (move f w i))
  /\ map call_of (w_checkers (move f w i)) = map call_of (w_checkers w).
Proof.
  intros Hf Hall. unfold move.
  destruct (nth_error (w_checkers w) i) as [c|] eqn:E; [|auto].
  pose proof (firstn_skipn_middle _ _ E) as Hsplit.
  rewrite <- Hsplit in Hall. apply Forall_app in Hall. destruct Hall as [Hb Hca].
  inversion Hca as [|x xs Hc Ha]; subst x xs.
  destruct (Hf (concat (map locks (firstn i (w_checkers w) ++ skipn (S i) (w_checkers w))))
               c (w_db w) Hc) as [Hc' Hcall].
  destruct (f _ c (w_db w)) as [c' db']. simpl in Hc', Hcall |- *. split.
  - apply Forall_app. split; [exact Hb|]. constructor; assumption.
  - rewrite <- Hsplit at 3. rewrite !map_app. simpl. rewrite Hcall. reflexivity.
Qed.

Lemma run_within_limit (schedule : list Action) (w : World) :
  Forall within_limit (w_checkers w) ->
  Forall within_limit (w_checkers (run schedule w))
  /\ map call_of (w_checkers (run schedule w)) = map call_of (w_checkers w).
Proof.
  unfold run. revert w.
  induction schedule as [|a schedule IH]; intros w Hall; simpl; [auto|].
  assert (Hact : Forall within_limit (w_checkers (act w a))
                 /\ map call_of (w_checkers (act w a)) = map call_of (w_checkers w)).
  { destruct a as [i|i]; simpl; apply move_within_limit; auto.
    - exact step_within_limit.
    - exact abort_within_limit. }
  destruct Hact as [Hall' Hcalls].
  destruct (IH _ Hall') as [Hfinal Hcalls'].
  split; [exact Hfinal|]. rewrite Hcalls'. exact Hcalls.
Qed.

End Limit.

(** X15: however the checkers inside [get_new_tasks] are interleaved and
    whatever the database aborts, every checker keeps the service, the
    count and the time it was called with, and is never given more tasks
    than its count. *)
Theorem concurrent_limit (schedule : list Concurrent.Action) (w0 : Concurrent.World) :
  Concurrent.all_calling w0 ->
  map (fun c => (Concurrent.ck_service c, Concurrent.ck_count c, Concurrent.ck_now c))
      (Concurrent.w_checkers (Concurrent.run schedule w0))
  = map (fun c => (Concurrent.ck_service c, Concurrent.ck_count c, Concurrent.ck_now c))
        (Concurrent.w_checkers w0)
  /\ Forall (fun c => (length (Concurrent.returned_ids c)
                       <= Z.to_nat (Concurrent.ck_count c))%nat)
            (Concurrent.w_checkers (Concurrent.run schedule w0)).
Proof.
  intros Hcalling.
  assert (Hstart : Forall within_limit (Concurrent.w_checkers w0)).
  { eapply Forall_impl; [|exact Hcalling].
    intros c Hc. unfold within_limit. rewrite Hc. exact I. }
  destruct (run_within_limit schedule w0 Hstart) as [Hfinal Hcalls].
  split; [exact Hcalls|].
  eapply Forall_impl; [|exact Hfinal].
  intros c. unfold within_limit, Concurrent.returned_ids.
  destruct (Concurrent.ck_phase c); simpl; try lia.
  rewrite length_map. auto.
Qed.

Lemma concurrent_limit_witness :
  Forall (fun c => (length (Concurrent.returned_ids c)
                    <= Z.to_nat (Concurrent.ck_count c))%nat)
         (Concurrent.w_checkers (Concurrent.run sample_schedule sample_world)).
Proof.
  apply (concurrent_limit sample_schedule sample_world). repeat constructor.
Defined.

(** ** More on the tick scheduler *)



Lemma task_count_rows_single (service : Z) (db : GameDB) (control : GameControl) :
  scoring_gamecontrol db = [control] ->
  length (select_task_count_rows service db)
  = length (filter (fun flag => (service_id flag =? service)
                                && (tick flag =? current_tick control))
                   (scoring_flag db)).
Proof.
  intros Hctl. unfold select_task_count_rows. rewrite Hctl, list_prod_single.
  induction (scoring_flag db) as [|flag flags IH]; simpl; [reflexivity|].
  rewrite (andb_comm (tick flag =? current_tick control)).
  destruct ((service_id flag =? service) && (tick flag =? current_tick control));
    simpl; rewrite IH; reflexivity.
Qed.

Lemma filter_nothing {A} (f : A -> bool) (l : list A) :
  (forall a, In a l -> f a = false) -> filter f l = [].
Proof.
  induction l as [|a l IH]; intros H; simpl; [reflexivity|].
  rewrite (H a (or_introl eq_refl)). apply IH. intros b Hb. apply H. right. exact Hb.
Qed.

(** The pairs of a product whose first component is [x], when [x] occurs
    once in the first list. *)
Lemma list_prod_fst_count {B} (x : Z) (l : list Z) (l' : list B) :
  NoDup l -> In x l ->
  length (filter (fun ab => fst ab =? x) (list_prod l l')) = length l'.
Proof.
  intros Hnd Hin. induction Hnd as [|a l Hnotin Hnd IH]; [destruct Hin|].
  simpl. rewrite filter_app, length_app.
  destruct (Z.eq_dec a x) as [->|Hne].
  - rewrite (filter_nothing _ (list_prod l l')).
    + rewrite filter_map_swap, length_map. simpl.
      erewrite filter_ext; [|intros b; apply Z.eqb_refl].
      assert (Hall : forall m : list B, filter (fun _ => true) m = m)
        by (induction m as [|b m IHm]; simpl; [|rewrite IHm]; reflexivity).
      rewrite Hall. simpl. lia.
    + intros [a b] Hab. apply in_prod_iff in Hab. destruct Hab as [Ha _].
      simpl. apply Z.eqb_neq. intros ->. contradiction.
  - destruct Hin as [Heq|Hin]; [contradiction|].
    rewrite IH by exact Hin.
    rewrite filter_nothing; [reflexivity|].
    intros [a' b] Hab. apply in_map_iff in Hab. destruct Hab as [b' [Heq _]].
    injection Heq as <- <-. simpl. apply Z.eqb_neq. exact Hne.
Qed.

Lemma fan_out_service_count (first_id new_tick : Z) (services : list Service)
    (teams : list Team) (service : Service) :
  NoDup (map svc_id services) ->
  In service services ->
  length (filter (fun flag => (service_id flag =? svc_id service)
                              && (tick flag =? new_tick))
                 (fan_out first_id new_tick services teams))
  = length teams.
Proof.
  intros Hnd Hin.
  rewrite <- (length_map user_id teams).
  rewrite <- (list_prod_fst_count (svc_id service) (map svc_id services)
                (map user_id teams) Hnd (in_map svc_id _ _ Hin)).
  rewrite <- fan_out_pairs with (first_id := first_id) (new_tick := new_tick).
  rewrite filter_map_swap, length_map. f_equal.
  apply filter_ext_in. intros flag Hflag. simpl.
  pose proof (fan_out_open first_id new_tick services teams) as Hopen.
  rewrite Forall_forall in Hopen. destruct (Hopen flag Hflag) as [-> _].
  rewrite Z.eqb_refl, andb_true_r. reflexivity.
Qed.

(** X17: after a scheduler step that advances the tick, with a single
    control row, unique service ids and no flag of a later tick in the
    table, [get_task_count] returns the number of registered teams for
    every service, as its docstring expects of the controller. *)
Theorem task_count_after_advance
    (now : Z) (nonstop p : bool) (db : GameDB) (control : GameControl)
    (service : Service) :
  scoring_gamecontrol db = [control] ->
  start control <= now ->
  nonstop = true
  \/ now < start control + valid_ticks control * tick_duration control ->
  current_tick control < (now - start control) / tick_duration control ->
  NoDup (map svc_id (scoring_service db)) ->
  In service (scoring_service db) ->
  (forall flag, In flag (scoring_flag db) -> tick flag <= current_tick control) ->
  get_task_count (svc_id service) p (snd (main_loop_step now nonstop db))
  = (Returned (Z.of_nat (length (registration_team db))),
     snd (main_loop_step now nonstop db)).
Proof.
  intros Hctl Hstart Hperm Hdue Hnd Hin Hpast.
  assert (Hstep : main_loop_step now nonstop db
                  = ([0], increase_tick (current_tick control + 1) db)).
  { unfold main_loop_step. rewrite Hctl. simpl fetchone. cbv iota.
    destruct (Z.ltb_spec now (start control)) as [Hlt|_]; [lia|].
    assert (Hp : (nonstop
                  || (now <? start control + valid_ticks control * tick_duration control))
                 = true).
    { destruct Hperm as [->|Hlt]; [reflexivity|].
      apply orb_true_iff. right. apply Z.ltb_lt. exact Hlt. }
    cbv zeta. rewrite Hp.
    destruct (Z.ltb_spec (current_tick control)
                         ((now - start control) / tick_duration control)) as [_|Hge];
      [reflexivity | lia]. }
  rewrite Hstep. simpl snd.
  unfold get_task_count. rewrite transaction_query. do 3 f_equal.
  rewrite (task_count_rows_single _ _ (set_current_tick (current_tick control + 1) control))
    by (simpl; rewrite Hctl; reflexivity).
  simpl. rewrite filter_app, length_app.
  rewrite filter_nothing.
  - simpl. apply fan_out_service_count; assumption.
  - intros flag Hflag. apply andb_false_iff. right. apply Z.eqb_neq.
    specialize (Hpast flag Hflag). lia.
Qed.

(** The first tick of the controller tests: two services, three teams. *)
Lemma task_count_after_advance_witness :
  get_task_count 1 false (snd (main_loop_step 1140 false sample_db))
  = (Returned 3, snd (main_loop_step 1140 false sample_db)).
Proof.
  apply (task_count_after_advance 1140 false false sample_db (mkGameControl 0 480 180 5)
           (mkService 1 "service1" "s1")).
  - reflexivity.
  - simpl. lia.
  - right. simpl. lia.
  - reflexivity.
  - simpl. repeat (constructor; [simpl; intuition discriminate|]). constructor.
  - left. reflexivity.
  - simpl. intros flag [<-|[<-|[<-|[<-|[<-|[]]]]]]; simpl; lia.
Defined.

Lemma lone_checker_get_new_tasks_witness :
  exists n,
    Concurrent.run (repeat (Concurrent.Step 0) n)
      (Concurrent.mkWorld
         [Concurrent.mkChecker (fun i => Z.of_nat i) 1000 1 5 Concurrent.Calling]
         sample_db)
    = Concurrent.mkWorld
        [Concurrent.mkChecker (fun i => Z.of_nat i) 1000 1 5
           (Concurrent.Done [mkTaskRow 2 2 5 102])]
        (snd (get_new_tasks (fun i => Z.of_nat i) 1000 1 5 false sample_db)).
Proof.
  destruct (lone_checker_get_new_tasks (fun i => Z.of_nat i) 1000 1 5 sample_db)
    as [n [Hrun _]]; [lia|].
  exists n. exact Hrun.
Defined.

(** ** Timestamps of a flag over a sequence of calls *)

(** C4, as the code has it: over any sequence of [get_new_tasks] and
    [commit_result] calls, with [id] as primary key, every flag stays in the
    table as the same work item, a [placement_start] that is set keeps its
    value, and a [placement_end] that is set stays set; and a further
    [commit_result] in the normal mode for the net number of a registered
    team (net numbers unique) sets [placement_end] to the time of that call
    on every flag of its service, team and tick, whether it was set before
    or not, and leaves every other flag as it was. *)
Theorem placement_only_forward
    (ops : list Op) (db : GameDB) (now service tick_no result : Z) (fake : option Z)
    (team : Team) :
  flag_ids_unique db ->
  NoDup (map net_number (registration_team db)) ->
  In team (registration_team db) ->
  Forall2 later_state (scoring_flag db) (scoring_flag (run_ops ops db))
  /\ Forall2 (fun flag flag' =>
                later_state flag flag'
                /\ (service_id flag = service /\ protecting_team_id flag = user_id team
                    /\ tick flag = tick_no ->
                    placement_end flag' = Some now)
                /\ (~ (service_id flag = service /\ protecting_team_id flag = user_id team
                       /\ tick flag = tick_no) -> flag' = flag))
             (scoring_flag (run_ops ops db))
             (scoring_flag
                (run_ops (ops ++ [OpCommitResult now service (net_number team) tick_no
                                                 result false fake]) db)).
Proof.
  intros Hunique Hnets Hteam. split; [apply run_ops_later; exact Hunique|].
  unfold run_ops at 2. rewrite fold_left_app. fold (run_ops ops db).
  cbn [fold_left run_op].
  destruct (run_ops_tables ops db) as [_ [_ Hteams]].
  rewrite commit_result_eq.
  rewrite (select_team_id_found team (run_ops ops db))
    by (rewrite Hteams; assumption).
  simpl. apply Forall2_map_In. intros flag _.
  destruct (placement_cond service (user_id team) tick_no flag) eqn:E.
  - split; [|split].
    + unfold later_state. simpl. repeat split; auto. discriminate.
    + intros _. reflexivity.
    + intros Hnot. apply placement_cond_spec in E. contradiction.
  - split; [apply later_state_refl|]. split; [|reflexivity].
    intros Hcond. apply placement_cond_spec in Hcond. congruence.
Qed.

(** Flag 4 of the sample store, closed at 905, is closed again at 1010 and
    at 1020 by two commits for its service, team and tick; its
    [placement_start] stays 901. *)
Lemma placement_only_forward_witness :
  Forall2 later_state (scoring_flag sample_db)
    (scoring_flag (run_ops [OpGetNewTasks (fun i => Z.of_nat i) 1000 1 5 false;
                            OpCommitResult 1010 1 104 5 0 false None]
                           sample_db))
  /\ nth_error
       (scoring_flag (run_ops [OpGetNewTasks (fun i => Z.of_nat i) 1000 1 5 false;
                               OpCommitResult 1010 1 104 5 0 false None]
                              sample_db)) 3
     = Some (mkFlag 4 1 4 5 (Some 901) (Some 1010))
  /\ nth_error
       (scoring_flag (run_ops [OpGetNewTasks (fun i => Z.of_nat i) 1000 1 5 false;
                               OpCommitResult 1010 1 104 5 0 false None;
                               OpCommitResult 1020 1 104 5 0 false None]
                              sample_db)) 3
     = Some (mkFlag 4 1 4 5 (Some 901) (Some 1020)).
Proof.
  destruct (placement_only_forward
              [OpGetNewTasks (fun i => Z.of_nat i) 1000 1 5 false;
               OpCommitResult 1010 1 104 5 0 false None]
              sample_db 1020 1 5 0 None (mkTeam 4 104))
    as [Hlater _].
  - exact sample_db_ids_unique.
  - simpl. repeat (constructor; [simpl; intuition discriminate|]). constructor.
  - simpl. auto.
  - split; [exact Hlater|]. split; reflexivity.
Defined.
